(** * Content-directory core: query pipeline, category normaliser, validator,
      dataset loader and homepage statistics

    A shallow embedding of the pure data-transformation layer of the
    content-directory site (lib/search-filter-sort.ts, lib/dataset.ts,
    lib/validation.ts, lib/homepage-stats.ts, lib/types.ts) together with
    the properties its specification states about it. *)

From Stdlib Require Import String Ascii List ZArith QArith Qround Qabs Qpower.
From Stdlib Require Import Lia Lqa.
From Stdlib Require Import Permutation Sorted.
From stdpp Require Import base gmap strings pretty.
Import ListNotations.

#[local] Set Warnings "-register-all".
#[local] Open Scope string_scope.

(* ===================================================================== *)
(** * The JavaScript fragment the library relies on *)
(* ===================================================================== *)

(** ** Strings

    A JavaScript string is a sequence of UTF-16 code units.  The model keeps
    the code units [0 .. 255] (the Latin-1 block), one [ascii] per code unit;
    on that block [String.prototype.toLowerCase] acts unit by unit and
    [String.prototype.trim] strips the seven white-space and line-terminator
    code units that fall in the block. *)
Module JSString.

(** WhiteSpace and LineTerminator code units below 256: TAB, LF, VT, FF,
    CR, SP and NBSP. *)
Definition isWhiteSpace (c : ascii) : bool :=
  let n := N_of_ascii c in
  ((n =? 9) || (n =? 10) || (n =? 11) || (n =? 12) || (n =? 13)
   || (n =? 32) || (n =? 160))%N.

(** Lower-case mapping of one code unit: [A-Z] and the Latin-1 capitals
    U+00C0 .. U+00DE (U+00D7, the multiplication sign, is not a letter). *)
Definition lowerUnit (c : ascii) : ascii :=
  let n := N_of_ascii c in
  if (((65 <=? n) && (n <=? 90))
      || ((192 <=? n) && (n <=? 222) && negb (n =? 215)))%N
  then ascii_of_N (n + 32) else c.

Fixpoint toLowerCase (s : string) : string :=
  match s with
  | EmptyString => EmptyString
  | String c r => String (lowerUnit c) (toLowerCase r)
  end.

Fixpoint trimStart (s : string) : string :=
  match s with
  | EmptyString => EmptyString
  | String c r => if isWhiteSpace c then trimStart r else s
  end.

Fixpoint trimEnd (s : string) : string :=
  match s with
  | EmptyString => EmptyString
  | String c r =>
      match trimEnd r with
      | EmptyString => if isWhiteSpace c then EmptyString else String c EmptyString
      | r' => String c r'
      end
  end.

Definition trim (s : string) : string := trimEnd (trimStart s).

(** [s.includes(q)]: [q] occurs in [s] as a contiguous block. *)
Fixpoint includes (s q : string) : bool :=
  String.prefix q s
  || match s with
     | EmptyString => false
     | String _ r => includes r q
     end.

(** [!s] for a string: only the empty string is falsy. *)
Definition isFalsy (s : string) : bool := String.eqb s "".

End JSString.
Import JSString.

(** ** Numbers

    A JavaScript number is NaN, an infinity or a finite value.  A finite
    value is the rational number that the double denotes; the two zeros are
    identified (no operation below tells them apart).

    Module [JSNumber] has the comparisons and the operations on the denoted
    real numbers, without rounding.  They stand for the code's operators
    where only the sign of a difference is looked at (the comparators of
    [sort]) and where the operands are small integers (the star counts): the
    rounded result has the sign of the exact one, and small integers are not
    rounded.  Module [Double] has addition and division rounded to binary64;
    they stand for the code's operators where the value itself is the
    result (the average rating). *)
Inductive number : Type :=
| NaN
| PInf
| NInf
| Fin (q : Q).

Module JSNumber.

Definition ltb (a b : number) : bool :=
  match a, b with
  | NaN, _ | _, NaN => false
  | _, NInf => false
  | PInf, _ => false
  | NInf, _ => true
  | Fin _, PInf => true
  | Fin x, Fin y => negb (Qle_bool y x)
  end.

Definition gtb (a b : number) : bool := ltb b a.

Definition leb (a b : number) : bool :=
  match a, b with
  | NaN, _ | _, NaN => false
  | NInf, _ => true
  | _, PInf => true
  | _, NInf => false
  | PInf, _ => false
  | Fin x, Fin y => Qle_bool x y
  end.

Definition geb (a b : number) : bool := leb b a.

Definition neg (a : number) : number :=
  match a with
  | NaN => NaN
  | PInf => NInf
  | NInf => PInf
  | Fin x => Fin (- x)
  end.

Definition add (a b : number) : number :=
  match a, b with
  | NaN, _ | _, NaN => NaN
  | PInf, NInf | NInf, PInf => NaN
  | PInf, _ | _, PInf => PInf
  | NInf, _ | _, NInf => NInf
  | Fin x, Fin y => Fin (x + y)
  end.

Definition sub (a b : number) : number := add a (neg b).

(** Sign of a rational as a comparison with zero. *)
Definition isNeg (x : Q) : bool := negb (Qle_bool 0 x).
Definition isZero (x : Q) : bool := Qeq_bool x 0.

Definition div (a b : number) : number :=
  match a, b with
  | NaN, _ | _, NaN => NaN
  | (PInf | NInf), (PInf | NInf) => NaN
  | PInf, Fin y => if isNeg y then NInf else PInf
  | NInf, Fin y => if isNeg y then PInf else NInf
  | Fin x, (PInf | NInf) => Fin 0
  | Fin x, Fin y =>
      if isZero y then
        if isZero x then NaN else if isNeg x then NInf else PInf
      else Fin (x / y)
  end.

(** The number that an array length or a counter denotes. *)
Definition ofNat (n : nat) : number := Fin (inject_Z (Z.of_nat n)).

(** Two numbers denote the same value. *)
Definition same (a b : number) : Prop :=
  match a, b with
  | NaN, NaN | PInf, PInf | NInf, NInf => True
  | Fin x, Fin y => (x == y)%Q
  | _, _ => False
  end.

(** [lo <= a <= hi] as real numbers; never true of NaN. *)
Definition within (lo hi : Q) (a : number) : Prop :=
  match a with
  | Fin x => (lo <= x /\ x <= hi)%Q
  | _ => False
  end.

End JSNumber.

(** ** Binary64 arithmetic

    [round x] is the double nearest to the real number [x], a tie going to
    the double with the even significand; a result of magnitude [2 ^ 1024]
    or more is an infinity.  The doubles near [x] are the multiples of
    [ulp x]: [2 ^ (e - 52)] when [2 ^ e <= |x| < 2 ^ (e + 1)], and
    [2 ^ -1074] for the subnormal numbers. *)
Module Double.

Definition pow2 (e : Z) : Q := (2 ^ e)%Q.

(** For [x > 0]: the [e] with [2 ^ e <= x < 2 ^ (e + 1)]. *)
Definition exponent (x : Q) : Z :=
  let k := (Z.log2 (Qnum x) - Z.log2 (Zpos (Qden x)))%Z in
  if Qle_bool (pow2 k) x then k else (k - 1)%Z.

Definition ulp (x : Q) : Q :=
  pow2 (Z.max (exponent (Qabs x) - 52) (-1074)).

(** The nearest integer, a tie going to the even one. *)
Definition nearestEven (x : Q) : Z :=
  let f := Qfloor x in
  match Qcompare (x - inject_Z f) (1 # 2) with
  | Lt => f
  | Gt => (f + 1)%Z
  | Eq => if Z.even f then f else (f + 1)%Z
  end.

Definition round (x : Q) : number :=
  if Qeq_bool x 0 then Fin 0
  else
    let y := (inject_Z (nearestEven (x / ulp x)) * ulp x)%Q in
    if Qle_bool (pow2 1024) (Qabs y) then (if Qle_bool 0 x then PInf else NInf)
    else Fin y.

(** [a + b]. *)
Definition add (a b : number) : number :=
  match a, b with
  | Fin x, Fin y => round (x + y)
  | _, _ => JSNumber.add a b
  end.

(** [a / b]. *)
Definition div (a b : number) : number :=
  match a, b with
  | Fin x, Fin y =>
      if JSNumber.isZero y then JSNumber.div a b else round (x / y)
  | _, _ => JSNumber.div a b
  end.

End Double.

(* ===================================================================== *)
(** * lib/types.ts *)
(* ===================================================================== *)

(** The field group that each dataset kind layers on the base item. *)
Inductive ItemVariant : Type :=
| StartupFields (founder fundingStage website location : string)
| AIToolFields (pricing website : string) (features : list string)
| DesignFields (designer : string) (year : number) (colors : list string)
    (website : string)
| APIFields (endpoint authentication pricing documentation : string)
| MovieFields (director : string) (year duration : number) (genre : string)
    (imdbRating : number).

Module Item.
Record t : Type := mk {
  id : string;
  slug : string;
  name : string;
  description : string;
  category : string;
  tags : list string;
  rating : number;
  imageUrl : option string;
  createdAt : string;
  variant : ItemVariant
}.
End Item.
Abbreviation DatasetItem := Item.t.

Module Dataset.
Record t : Type := mk {
  type : string;
  items : list DatasetItem;
  categories : list string;
  tags : list string
}.
End Dataset.

(* ===================================================================== *)
(** * lib/search-filter-sort.ts: search and filters *)
(* ===================================================================== *)

Definition searchItems (items : list DatasetItem) (query : string)
  : list DatasetItem :=
  if isFalsy query || String.eqb (trim query) "" then items
  else
    let normalizedQuery := trim (toLowerCase query) in
    List.filter
      (fun item =>
         let nameMatch := includes (toLowerCase (Item.name item)) normalizedQuery in
         let descriptionMatch :=
           includes (toLowerCase (Item.description item)) normalizedQuery in
         let tagMatch :=
           existsb (fun tag => includes (toLowerCase tag) normalizedQuery)
                   (Item.tags item) in
         nameMatch || descriptionMatch || tagMatch)
      items.

Definition filterByCategory (items : list DatasetItem) (category : string)
  : list DatasetItem :=
  if isFalsy category || String.eqb (trim category) "" then items
  else
    let normalizedCategory := trim (toLowerCase category) in
    List.filter
      (fun item =>
         String.eqb (trim (toLowerCase (Item.category item))) normalizedCategory)
      items.

(** [tags] is [None] for a missing ([undefined] / [null]) argument. *)
Definition filterByTags (items : list DatasetItem) (tags : option (list string))
  : list DatasetItem :=
  match tags with
  | None => items
  | Some tags =>
      if (length tags =? 0)%nat then items
      else
        List.filter
          (fun item =>
             existsb (fun tag => existsb (String.eqb tag) (Item.tags item)) tags)
          items
  end.

Definition filterByMinRating (items : list DatasetItem) (minRating : number)
  : list DatasetItem :=
  if JSNumber.leb minRating (Fin 0) then items
  else List.filter (fun item => JSNumber.geb (Item.rating item) minRating) items.

(* ===================================================================== *)
(** * lib/search-filter-sort.ts: sorting *)
(* ===================================================================== *)

(** ** [Array.prototype.sort]

    The built-in sorts in place and is stable.  Its comparator returns a
    number; a NaN result counts as [+0].  The model is the insertion sort that
    places each element behind every element already placed that does not
    compare greater than it. *)
Section ArraySort.
Context {A : Type}.
Variable comparefn : A -> A -> number.

Definition sortCompare (x y : A) : number :=
  match comparefn x y with
  | NaN => Fin 0
  | v => v
  end.

Fixpoint insert (x : A) (sorted : list A) : list A :=
  match sorted with
  | [] => [x]
  | y :: rest =>
      if JSNumber.gtb (sortCompare y x) (Fin 0) then x :: y :: rest
      else y :: insert x rest
  end.

Definition sort (l : list A) : list A :=
  fold_left (fun sorted x => insert x sorted) l [].
End ArraySort.

(** ** Arrays as shared objects

    The search and the filters only read their argument, so they are
    functions on the contents of the array.  [sortItems] writes: [sort]
    overwrites the array it is called on.  For it an array is an object on
    the heap and a variable holds a reference to it; the heap lists the
    arrays in allocation order and a reference is the position of its
    array. *)
Abbreviation ref := nat.
Abbreviation heap := (list (list DatasetItem)).

(** [[...items]]: a fresh array holding the elements of [items]. *)
Definition spread (h : heap) (items : list DatasetItem) : heap * ref :=
  ((h ++ [items])%list, length h).

(** [a.sort(comparefn)]: overwrites the array behind [a], evaluates to [a]. *)
Definition sortInPlace (comparefn : DatasetItem -> DatasetItem -> number)
    (h : heap) (a : ref) : heap * ref :=
  match h !! a with
  | Some elems => (<[a := sort comparefn elems]> h, a)
  | None => (h, a)
  end.

Section SortItems.
(** [String.prototype.localeCompare] under the host's default collation:
    negative, zero or positive. *)
Variable localeCompare : string -> string -> Z.

Definition compareNumber (z : Z) : number := Fin (inject_Z z).

(** The comparator that each [case] of the switch passes to [sort];
    [None] is the [default] branch. *)
Definition comparatorOf (sortBy : string)
  : option (DatasetItem -> DatasetItem -> number) :=
  if String.eqb sortBy "name-asc" then
    Some (fun a b => compareNumber (localeCompare (Item.name a) (Item.name b)))
  else if String.eqb sortBy "name-desc" then
    Some (fun a b => compareNumber (localeCompare (Item.name b) (Item.name a)))
  else if String.eqb sortBy "rating-asc" then
    Some (fun a b => JSNumber.sub (Item.rating a) (Item.rating b))
  else if String.eqb sortBy "rating-desc" then
    Some (fun a b => JSNumber.sub (Item.rating b) (Item.rating a))
  else None.

(** [items] is a live reference; a dangling one gives [None]. *)
Definition sortItems (h : heap) (items : ref) (sortBy : string)
  : option (heap * ref) :=
  match h !! items with
  | None => None
  | Some elems =>
      let '(h1, sortedItems) := spread h elems in
      match comparatorOf sortBy with
      | Some comparefn => Some (sortInPlace comparefn h1 sortedItems)
      | None => Some (h1, sortedItems)
      end
  end.
End SortItems.

(* ===================================================================== *)
(** * lib/dataset.ts: category normaliser *)
(* ===================================================================== *)

Definition normalizeCategoryForUrl (category : string) : string :=
  trim (toLowerCase category).

(** [null] is [None].  [found || null] also turns a found empty string into
    [null]. *)
Definition findOriginalCategory (normalizedCategory : string)
    (categories : list string) : option string :=
  let normalized := trim (toLowerCase normalizedCategory) in
  let found :=
    List.find (fun cat => String.eqb (trim (toLowerCase cat)) normalized)
              categories in
  match found with
  | Some cat => if isFalsy cat then None else Some cat
  | None => None
  end.

(* ===================================================================== *)
(** * Untyped values ([any] / [unknown]) *)
(* ===================================================================== *)

(** The values of the language, as far as the library can tell them apart.
    An array holds its elements and nothing else, as the arrays of a parsed
    JSON document do; an object maps property names to values. *)
Inductive jsval : Type :=
| JUndefined
| JNull
| JBool (b : bool)
| JNum (n : number)
| JStr (s : string)
| JBigInt (z : Z)
| JSymbol (tag : nat)
| JFunction (tag : nat)
| JArr (elems : list jsval)
| JObj (props : gmap string jsval).

Module JSValue.

Definition typeof (v : jsval) : string :=
  match v with
  | JUndefined => "undefined"
  | JNull => "object"
  | JBool _ => "boolean"
  | JNum _ => "number"
  | JStr _ => "string"
  | JBigInt _ => "bigint"
  | JSymbol _ => "symbol"
  | JFunction _ => "function"
  | JArr _ => "object"
  | JObj _ => "object"
  end.

(** ToBoolean. *)
Definition truthy (v : jsval) : bool :=
  match v with
  | JUndefined | JNull => false
  | JBool b => b
  | JNum NaN => false
  | JNum (Fin q) => negb (Qeq_bool q 0)
  | JNum _ => true
  | JStr s => negb (String.eqb s "")
  | JBigInt z => negb (z =? 0)%Z
  | JSymbol _ | JFunction _ | JArr _ | JObj _ => true
  end.

Definition isArray (v : jsval) : bool :=
  match v with
  | JArr _ => true
  | _ => false
  end.

(** [field in v] for the property names the library asks about.  An
    object has its own properties; an array has [length] (its index and
    prototype properties are never asked for).  On a primitive [in] throws;
    every use below is behind a [typeof v === 'object'] test. *)
Definition hasProperty (field : string) (v : jsval) : bool :=
  match v with
  | JObj props => bool_decide (is_Some (props !! field))
  | JArr _ => String.eqb field "length"
  | _ => false
  end.

(** [v[field]] / [v.field] on an object or an array. *)
Definition getProperty (v : jsval) (field : string) : jsval :=
  match v with
  | JObj props => default JUndefined (props !! field)
  | JArr elems =>
      if String.eqb field "length" then JNum (JSNumber.ofNat (length elems))
      else JUndefined
  | _ => JUndefined
  end.

(** [v.every(p)] on an array. *)
Definition every (p : jsval -> bool) (v : jsval) : bool :=
  match v with
  | JArr elems => forallb p elems
  | _ => false
  end.

(** [v < n] and [v > n] with a number on the left; the library compares
    only values it has just checked to be of type number. *)
Definition ltNumber (v : jsval) (n : number) : bool :=
  match v with
  | JNum x => JSNumber.ltb x n
  | _ => false
  end.

Definition gtNumber (v : jsval) (n : number) : bool :=
  match v with
  | JNum x => JSNumber.gtb x n
  | _ => false
  end.

End JSValue.
Import JSValue.

(* ===================================================================== *)
(** * lib/validation.ts *)
(* ===================================================================== *)

Definition requiredFields : list (string * string) :=
  [ ("name", "string"); ("category", "string"); ("tags", "array");
    ("rating", "number"); ("description", "string") ].

(** One round of the loop over [Object.entries(requiredFields)]: [false]
    where the body returns [false], [true] where it falls through. *)
Definition checkField (item : jsval) (entry : string * string) : bool :=
  let '(field, expectedType) := entry in
  if negb (hasProperty field item) then false
  else
    let value := getProperty item field in
    if String.eqb expectedType "array" then
      if negb (isArray value) then false
      else if String.eqb field "tags"
              && negb (every (fun tag => String.eqb (typeof tag) "string") value)
           then false
      else true
    else if negb (String.eqb (typeof value) expectedType) then false
    else true.

Definition isValidItem (item : jsval) : bool :=
  if negb (truthy item) || negb (String.eqb (typeof item) "object") then false
  else if negb (forallb (checkField item) requiredFields) then false
  else if ltNumber (getProperty item "rating") (Fin 0)
          || gtNumber (getProperty item "rating") (Fin 5) then false
  else true.

(** Indices, counted from [index], of the elements that [isValidItem]
    rejects: the [invalidItems] array that the [forEach] fills. *)
Fixpoint invalidItemsFrom (index : nat) (items : list jsval) : list nat :=
  match items with
  | [] => []
  | item :: rest =>
      if negb (isValidItem item) then index :: invalidItemsFrom (S index) rest
      else invalidItemsFrom (S index) rest
  end.

Definition elements (v : jsval) : list jsval :=
  match v with
  | JArr elems => elems
  | _ => []
  end.

Definition isValidDataset (dataset : jsval) : bool :=
  if negb (truthy dataset) || negb (String.eqb (typeof dataset) "object") then false
  else if negb (hasProperty "items" dataset)
          || negb (isArray (getProperty dataset "items")) then false
  else if negb (hasProperty "type" dataset)
          || negb (String.eqb (typeof (getProperty dataset "type")) "string")
       then false
  else if negb (hasProperty "categories" dataset)
          || negb (isArray (getProperty dataset "categories")) then false
  else if negb (hasProperty "tags" dataset)
          || negb (isArray (getProperty dataset "tags")) then false
  else
    let invalidItems := invalidItemsFrom 0 (elements (getProperty dataset "items")) in
    if (0 <? length invalidItems)%nat then false else true.

(* ===================================================================== *)
(** * lib/dataset.ts: loader and cache *)
(* ===================================================================== *)

(** A call either returns a value or throws an [Error] with a message. *)
Inductive outcome (A : Type) : Type :=
| Returns (value : A)
| Throws (message : string).
Arguments Returns {A} value.
Arguments Throws {A} message.

Inductive consoleEntry : Type :=
| ConsoleLog (text : string)
| ConsoleError (text : string).

(** What the loader module can observe and change: the console and its
    module-level variable [cachedDataset] (initially [null]). *)
Record process : Type := mkProcess {
  console : list consoleEntry;
  cachedDataset : jsval
}.

Definition initialProcess : process :=
  {| console := []; cachedDataset := JNull |}.

Definition consoleWrite (entry : consoleEntry) (st : process) : process :=
  {| console := (console st ++ [entry])%list; cachedDataset := cachedDataset st |}.

Definition lengthText (v : jsval) : string :=
  pretty (length (elements v)).

(** [name] between double quotes, as the messages spell field names. *)
Definition quoted (name : string) : string :=
  let quote := String (ascii_of_nat 34) EmptyString in
  quote ++ name ++ quote.

(** The body of the [try] block: the entries it writes to the console and
    how it completes. *)
Definition loadDatasetBody (datasetJson : jsval)
  : list consoleEntry * outcome jsval :=
  if negb (truthy datasetJson) then
    let errorMsg :=
      "Dataset file is missing or empty. Please ensure data/dataset.json exists and contains valid data." in
    ([ConsoleError ("Dataset loading error: " ++ errorMsg)], Throws errorMsg)
  else if negb (String.eqb (typeof datasetJson) "object") then
    let errorMsg := "Dataset must be a valid JSON object" in
    ([ConsoleError ("Dataset validation error: " ++ errorMsg)], Throws errorMsg)
  else
    let dataset := datasetJson in
    if negb (truthy (getProperty dataset "type")) then
      let errorMsg := "Dataset must have a " ++ quoted "type" ++ " field" in
      ([ConsoleError ("Dataset validation error: " ++ errorMsg)], Throws errorMsg)
    else if negb (isArray (getProperty dataset "items")) then
      let errorMsg := "Dataset must have an " ++ quoted "items" ++ " array" in
      ([ConsoleError ("Dataset validation error: " ++ errorMsg)], Throws errorMsg)
    else if negb (isArray (getProperty dataset "categories")) then
      let errorMsg := "Dataset must have a " ++ quoted "categories" ++ " array" in
      ([ConsoleError ("Dataset validation error: " ++ errorMsg)], Throws errorMsg)
    else if negb (isArray (getProperty dataset "tags")) then
      let errorMsg := "Dataset must have a " ++ quoted "tags" ++ " array" in
      ([ConsoleError ("Dataset validation error: " ++ errorMsg)], Throws errorMsg)
    else
      ([ConsoleLog ("Dataset loaded successfully: "
                    ++ lengthText (getProperty dataset "items") ++ " items, "
                    ++ lengthText (getProperty dataset "categories")
                    ++ " categories")],
       Returns dataset).

(** [loadDataset]: the [try] block, and the [catch] clause that logs the
    message of the caught [Error] and throws a new one that wraps it. *)
Definition loadDataset (datasetJson : jsval) (st : process)
  : process * outcome jsval :=
  let '(entries, completion) := loadDatasetBody datasetJson in
  let st1 := fold_left (fun s e => consoleWrite e s) entries st in
  match completion with
  | Returns dataset => (st1, Returns dataset)
  | Throws message =>
      (consoleWrite (ConsoleError ("Failed to load dataset: " ++ message)) st1,
       Throws ("Dataset loading failed: " ++ message))
  end.

Definition getDataset (datasetJson : jsval) (st : process)
  : process * outcome jsval :=
  if negb (truthy (cachedDataset st)) then
    match loadDataset datasetJson st with
    | (st1, Returns dataset) =>
        ({| console := console st1; cachedDataset := dataset |}, Returns dataset)
    | (st1, Throws message) => (st1, Throws message)
    end
  else (st, Returns (cachedDataset st)).

(** The functions that lib/dataset.ts exports, as calls that the rest of the
    program can make on the module. *)
Inductive moduleCall : Type :=
| CallLoadDataset
| CallGetDataset
| CallNormalizeCategoryForUrl (category : string)
| CallFindOriginalCategory (normalizedCategory : string) (categories : list string).

Inductive moduleResult : Type :=
| DatasetResult (r : outcome jsval)
| StringResult (s : string)
| LookupResult (s : option string).

Definition callModule (datasetJson : jsval) (st : process) (c : moduleCall)
  : process * moduleResult :=
  match c with
  | CallLoadDataset =>
      let '(st1, r) := loadDataset datasetJson st in (st1, DatasetResult r)
  | CallGetDataset =>
      let '(st1, r) := getDataset datasetJson st in (st1, DatasetResult r)
  | CallNormalizeCategoryForUrl category =>
      (st, StringResult (normalizeCategoryForUrl category))
  | CallFindOriginalCategory normalizedCategory categories =>
      (st, LookupResult (findOriginalCategory normalizedCategory categories))
  end.

(** The state of the process after a sequence of calls. *)
Definition runCalls (datasetJson : jsval) (st : process) (calls : list moduleCall)
  : process :=
  fold_left (fun s c => fst (callModule datasetJson s c)) calls st.

(* ===================================================================== *)
(** * lib/homepage-stats.ts *)
(* ===================================================================== *)

Record HomepageStatistics : Type := mkStatistics {
  totalItems : nat;
  totalCategories : nat;
  totalTags : nat;
  averageRating : number
}.

Definition calculateHomepageStatistics (dataset : Dataset.t) : HomepageStatistics :=
  let totalItems := length (Dataset.items dataset) in
  let totalCategories := length (Dataset.categories dataset) in
  let totalTags := length (Dataset.tags dataset) in
  let averageRating :=
    if (0 <? totalItems)%nat then
      Double.div
        (fold_left (fun sum item => Double.add sum (Item.rating item))
                   (Dataset.items dataset) (Fin 0))
        (JSNumber.ofNat totalItems)
    else Fin 0 in
  {| totalItems := totalItems;
     totalCategories := totalCategories;
     totalTags := totalTags;
     averageRating := averageRating |}.

(* ===================================================================== *)
(** * Pages and components *)
(* ===================================================================== *)

(** The pages read the dataset that [getDataset] returns; here it is the
    argument [dataset], typed as lib/types.ts types it. *)

(** ** More of the JavaScript fragment *)
Module JSMath.

(** [Math.floor]. *)
Definition floor (a : number) : number :=
  match a with
  | Fin x => Fin (inject_Z (Qfloor x))
  | other => other
  end.

(** The integer part of a rational, rounding towards zero. *)
Definition truncate (x : Q) : Z := Z.quot (Qnum x) (Zpos (Qden x)).

(** [a % 1]: what is left of [a] beyond its integer part, with the sign of
    [a]; NaN for NaN and for the infinities. *)
Definition remainderOne (a : number) : number :=
  match a with
  | Fin x => Fin (x - inject_Z (truncate x))
  | _ => NaN
  end.

(** [Array(n)] for a number [n] gives an array of that length; it throws a
    RangeError, here [None], unless [n] is an integer from 0 to 2^32 - 1. *)
Definition arrayOfLength (n : number) : option nat :=
  match n with
  | Fin x =>
      let k := Qfloor x in
      if Qeq_bool x (inject_Z k) && (0 <=? k)%Z && (k <? 2 ^ 32)%Z
      then Some (Z.to_nat k)
      else None
  | _ => None
  end.

End JSMath.

(** ** [renderStars] of components/ItemCard.tsx and app/[slug]/page.tsx

    The two copies differ in the size of the icons only.  The row that is
    drawn has [fullCount] full stars, a half star if [halfShown], and
    [emptyCount] empty stars; [None] is the RangeError of [Array(fullStars)] or
    [Array(emptyStars)]. *)
Record StarRow : Type := mkStarRow {
  fullCount : nat;
  halfShown : bool;
  emptyCount : nat
}.

Definition renderStars (rating : number) : option StarRow :=
  let fullStars := JSMath.floor rating in
  let hasHalfStar := JSNumber.geb (JSMath.remainderOne rating) (Fin (1 # 2)) in
  let emptyStars :=
    JSNumber.sub (JSNumber.sub (Fin 5) fullStars)
                 (if hasHalfStar then Fin 1 else Fin 0) in
  match JSMath.arrayOfLength fullStars with
  | None => None
  | Some fullLength =>
      match JSMath.arrayOfLength emptyStars with
      | None => None
      | Some emptyLength =>
          Some {| fullCount := fullLength; halfShown := hasHalfStar;
                  emptyCount := emptyLength |}
      end
  end.

(** ** components/ItemCard.tsx *)
Module ItemCard.

Definition shortDescription (item : DatasetItem) : string :=
  if (120 <? String.length (Item.description item))%nat
  then String.substring 0 120 (Item.description item) ++ "..."
  else Item.description item.

End ItemCard.

(** ** components/FilterPanel.tsx

    [handleCategoryToggle] and [handleTagToggle] are the same function of
    the current selection and the clicked entry; the result is what they
    pass to [onCategoryChange] / [onTagChange]. *)
Module FilterPanel.

Definition handleToggle (selected : list string) (entry : string) : list string :=
  if existsb (fun s => String.eqb s entry) selected
  then List.filter (fun s => negb (String.eqb s entry)) selected
  else (selected ++ [entry])%list.

End FilterPanel.

(** ** app/page.tsx *)
Module Home.

(** [[...dataset.items].sort((a, b) => b.rating - a.rating).slice(0, 3)]:
    the sort works on the copy. *)
Definition featuredItems (dataset : Dataset.t) : list DatasetItem :=
  firstn 3
    (sort (fun a b => JSNumber.sub (Item.rating b) (Item.rating a))
          (Dataset.items dataset)).

(** The number that the page formats with [toFixed(1)]. *)
Definition averageRating (dataset : Dataset.t) : number :=
  let totalItems := length (Dataset.items dataset) in
  Double.div
    (fold_left (fun sum item => Double.add sum (Item.rating item))
               (Dataset.items dataset) (Fin 0))
    (JSNumber.ofNat totalItems).

(** The count that the card of [category] shows. *)
Definition categoryCount (dataset : Dataset.t) (category : string) : nat :=
  length (List.filter (fun item => String.eqb (Item.category item) category)
                      (Dataset.items dataset)).

End Home.

(** ** app/[slug]/page.tsx *)
Module ItemDetailPage.

Definition generateStaticParams (dataset : Dataset.t) : list string :=
  map Item.slug (Dataset.items dataset).

(** [undefined] is [None]. *)
Definition getItemBySlug (dataset : Dataset.t) (slug : string)
  : option DatasetItem :=
  List.find (fun item => String.eqb (Item.slug item) slug) (Dataset.items dataset).

(** [limit] is a count; the page calls with the default, 3. *)
Definition getRelatedItems (dataset : Dataset.t) (item : DatasetItem) (limit : nat)
  : list DatasetItem :=
  firstn limit
    (List.filter
       (fun i => String.eqb (Item.category i) (Item.category item)
                 && negb (String.eqb (Item.id i) (Item.id item)))
       (Dataset.items dataset)).

End ItemDetailPage.

Section Listings.
Variable localeCompare : string -> string -> Z.

(** The contents of the array that [sortItems(items, sortBy)] returns when
    [items] is an array that holds [elems]. *)
Definition sortedItems (elems : list DatasetItem) (sortBy : string)
  : list DatasetItem :=
  match sortItems localeCompare [elems] 0 sortBy with
  | Some (h, sorted) => default [] (h !! sorted)
  | None => []
  end.

(** ** app/category/[category]/page.tsx *)

Definition categoryStaticParams (dataset : Dataset.t) : list string :=
  map normalizeCategoryForUrl (Dataset.categories dataset).

(** [categoryItemCount]; [None] is the branch that shows Category Not
    Found. *)
Definition categoryItemCount (dataset : Dataset.t) (category : string)
  : option nat :=
  match findOriginalCategory category (Dataset.categories dataset) with
  | None => None
  | Some originalCategory =>
      if isFalsy originalCategory then None
      else Some (length (filterByCategory (Dataset.items dataset) originalCategory))
  end.

(** [filteredItems] of the category page, for the URL parameter [category]
    and the state [searchQuery], [sortBy]. *)
Definition categoryFilteredItems (dataset : Dataset.t)
    (category searchQuery sortBy : string) : option (list DatasetItem) :=
  match findOriginalCategory category (Dataset.categories dataset) with
  | None => None
  | Some originalCategory =>
      if isFalsy originalCategory then None
      else
        let items := filterByCategory (Dataset.items dataset) originalCategory in
        let items :=
          if negb (isFalsy searchQuery) then searchItems items searchQuery
          else items in
        Some (sortedItems items sortBy)
  end.

(** ** app/browse/page.tsx *)

Definition browseFilteredItems (dataset : Dataset.t) (searchQuery : string)
    (selectedCategories selectedTags : list string) (sortBy : string)
  : list DatasetItem :=
  let items := Dataset.items dataset in
  let items :=
    if negb (isFalsy searchQuery) then searchItems items searchQuery
    else items in
  let items :=
    if (0 <? length selectedCategories)%nat then
      List.filter
        (fun item =>
           existsb (fun c => String.eqb c (Item.category item)) selectedCategories)
        items
    else items in
  let items :=
    if (0 <? length selectedTags)%nat then filterByTags items (Some selectedTags)
    else items in
  sortedItems items sortBy.

End Listings.

(* ===================================================================== *)
(** * Specification vocabulary *)
(* ===================================================================== *)

(** [q] occurs in [s]. *)
Definition isSubstring (q s : string) : Prop :=
  exists before after, s = before ++ q ++ after.

(** [kept] is exactly the subsequence of [all] whose elements satisfy [P],
    in the order of [all]. *)
Inductive Selects {A : Type} (P : A -> Prop) : list A -> list A -> Prop :=
| Selects_nil : Selects P [] []
| Selects_keep x all kept :
    P x -> Selects P all kept -> Selects P (x :: all) (x :: kept)
| Selects_skip x all kept :
    ~ P x -> Selects P all kept -> Selects P (x :: all) kept.

(** Equality of two strings up to case and surrounding white space. *)
Definition sameIgnoringCaseAndSpace (a b : string) : Prop :=
  trim (toLowerCase a) = trim (toLowerCase b).

(** The search criterion, for an already normalised query. *)
Definition matchesQuery (normalizedQuery : string) (item : DatasetItem) : Prop :=
  isSubstring normalizedQuery (toLowerCase (Item.name item))
  \/ isSubstring normalizedQuery (toLowerCase (Item.description item))
  \/ exists tag, In tag (Item.tags item)
                 /\ isSubstring normalizedQuery (toLowerCase tag).

(** The tag-filter criterion: some requested tag is, verbatim, a tag of the
    item. *)
Definition carriesSomeTag (requested : list string) (item : DatasetItem) : Prop :=
  exists tag, In tag requested /\ In tag (Item.tags item).

(** An item that is well typed but whose rating is NaN. *)
Definition nanRatedItem : DatasetItem :=
  {| Item.id := "N"; Item.slug := "n"; Item.name := "N";
     Item.description := "d3"; Item.category := "X";
     Item.tags := ["ai"]; Item.rating := NaN; Item.imageUrl := None;
     Item.createdAt := "2024-01-01";
     Item.variant := StartupFields "founder" "Seed" "https://example.com" "Pune" |}.

(** A comparator on strings that is a consistent total preorder, as the
    language standard demands of [localeCompare]. *)
Definition ConsistentCollation (localeCompare : string -> string -> Z) : Prop :=
  (forall a b, Z.sgn (localeCompare b a) = (- Z.sgn (localeCompare a b))%Z)
  /\ (forall a b c,
        (localeCompare a b <= 0)%Z -> (localeCompare b c <= 0)%Z ->
        (localeCompare a c <= 0)%Z).

(** Code-unit order, a collation that ignores locale. *)
Definition codeUnitCompare (a b : string) : Z :=
  match String.compare a b with
  | Lt => (-1)%Z
  | Eq => 0%Z
  | Gt => 1%Z
  end.



(** A string that does not begin with white space. *)
Definition noLeadingSpace (s : string) : Prop :=
  match s with
  | EmptyString => True
  | String c _ => isWhiteSpace c = false
  end.

(** The two items of the specification's worked scenario. *)
Definition scenarioItem (name description category tag : string) (rating : Q)
  : DatasetItem :=
  {| Item.id := name; Item.slug := toLowerCase name; Item.name := name;
     Item.description := description; Item.category := category;
     Item.tags := [tag]; Item.rating := Fin rating; Item.imageUrl := None;
     Item.createdAt := "2024-01-01";
     Item.variant := StartupFields "founder" "Seed" "https://example.com" "Pune" |}.

Definition itemA : DatasetItem := scenarioItem "A" "d" "X" "ai" 4.5.
Definition itemB : DatasetItem := scenarioItem "B" "d2" "Y" "ml" 2.

Definition scenarioDataset : Dataset.t :=
  {| Dataset.type := "startups"; Dataset.items := [itemA; itemB];
     Dataset.categories := ["X"; "Y"]; Dataset.tags := ["ai"; "ml"] |}.

(** The doubles nearest to 0.1 and to 0.2, and a dataset of two items so
    rated. *)
Definition oneTenth : Q := 3602879701896397 # 36028797018963968.
Definition oneFifth : Q := 3602879701896397 # 18014398509481984.


(** A value of type string. *)
Definition isString (v : jsval) : Prop := exists s, v = JStr s.

(** [a < lo] or [a > hi], as comparisons of numbers: false of NaN. *)
Definition belowOrAbove (lo hi : Q) (a : number) : Prop :=
  match a with
  | NaN => False
  | PInf | NInf => True
  | Fin x => (x < lo \/ hi < x)%Q
  end.

(** The five fields that [isValidItem] looks at. *)
Definition checkedFields : list string :=
  ["name"; "category"; "tags"; "rating"; "description"].

(** The candidates that the validator lets through: an object with string
    [name], [category] and [description], an array of strings as [tags], and
    a number as [rating] that is neither less than 0 nor greater than 5. *)
Definition acceptedItem (candidate : jsval) : Prop :=
  exists props name category description tags rating,
    candidate = JObj props
    /\ props !! "name" = Some (JStr name)
    /\ props !! "category" = Some (JStr category)
    /\ props !! "description" = Some (JStr description)
    /\ props !! "tags" = Some (JArr tags)
    /\ Forall isString tags
    /\ props !! "rating" = Some (JNum rating)
    /\ ~ belowOrAbove 0 5 rating.

(** An object with the four top-level fields of a dataset in the right
    shape. *)
Definition datasetShaped (dataset : gmap string jsval) (items : list jsval) : Prop :=
  dataset !! "items" = Some (JArr items)
  /\ (exists type, dataset !! "type" = Some (JStr type))
  /\ (exists categories, dataset !! "categories" = Some (JArr categories))
  /\ (exists tags, dataset !! "tags" = Some (JArr tags)).

(** An item whose rating is NaN, and a dataset that holds it. *)
Definition nanItem : gmap string jsval :=
  <["name" := JStr "A"]> (<["category" := JStr "X"]> (<["description" := JStr "d"]>
  (<["tags" := JArr [JStr "ai"]]> (<["rating" := JNum NaN]> ∅)))).

Definition nanDataset : gmap string jsval :=
  <["type" := JStr "startups"]> (<["items" := JArr [JObj nanItem]]>
  (<["categories" := JArr [JStr "X"]]> (<["tags" := JArr [JStr "ai"]]> ∅))).

(** The sources that [loadDataset] lets through: an object whose [type] is
    truthy and whose [items], [categories] and [tags] are arrays. *)
Definition loadable (datasetJson : jsval) : Prop :=
  exists props type items categories tags,
    datasetJson = JObj props
    /\ props !! "type" = Some type /\ truthy type = true
    /\ props !! "items" = Some (JArr items)
    /\ props !! "categories" = Some (JArr categories)
    /\ props !! "tags" = Some (JArr tags).

(** A well-shaped dataset but for its [type], which is the number 5. *)
Definition numericTypeDataset : jsval :=
  JObj (<["type" := JNum (Fin 5)]> (<["items" := JArr []]>
       (<["categories" := JArr []]> (<["tags" := JArr []]> ∅)))).

(** A well-shaped dataset whose [type] is the empty string. *)
Definition emptyTypeDataset : jsval :=
  JObj (<["type" := JStr ""]> (<["items" := JArr []]>
       (<["categories" := JArr []]> (<["tags" := JArr []]> ∅)))).

(** The worked scenario as the parsed JSON document. *)
Definition scenarioJson : jsval :=
  JObj (<["type" := JStr "startups"]>
       (<["items" := JArr [JObj (<["name" := JStr "A"]> (<["rating" := JNum (Fin 4.5)]> ∅));
                           JObj (<["name" := JStr "B"]> (<["rating" := JNum (Fin 2)]> ∅))]]>
       (<["categories" := JArr [JStr "X"; JStr "Y"]]>
       (<["tags" := JArr [JStr "ai"; JStr "ml"]]> ∅)))).

(** The cache is empty, or it holds the source that [loadDataset] let
    through. *)
Definition cacheInvariant (datasetJson : jsval) (st : process) : Prop :=
  cachedDataset st = JNull
  \/ (cachedDataset st = datasetJson /\ loadable datasetJson).

(** [x] sorts after [y]: the comparator's result on [(x, y)] is positive. *)
Definition sortsAfter {A : Type} (comparefn : A -> A -> number) (x y : A) : bool :=
  JSNumber.gtb (sortCompare comparefn x y) (Fin 0).

(** Neither of [x] and [y] sorts after the other. *)
Definition comparesEqual {A : Type} (comparefn : A -> A -> number) (x y : A) : bool :=
  negb (sortsAfter comparefn x y) && negb (sortsAfter comparefn y x).

(** Every element is related to its successor. *)
Definition adjacentPairs {A : Type} (R : A -> A -> Prop) (l : list A) : Prop :=
  forall i a b, l !! i = Some a -> l !! S i = Some b -> R a b.

(** What each sort mode promises of two neighbours of the result. *)
Definition inOrder (localeCompare : string -> string -> Z) (sortBy : string)
    (a b : DatasetItem) : Prop :=
  if String.eqb sortBy "name-asc" then
    (localeCompare (Item.name a) (Item.name b) <= 0)%Z
  else if String.eqb sortBy "name-desc" then
    (localeCompare (Item.name a) (Item.name b) >= 0)%Z
  else if String.eqb sortBy "rating-asc" then
    JSNumber.leb (Item.rating a) (Item.rating b) = true
  else if String.eqb sortBy "rating-desc" then
    JSNumber.geb (Item.rating a) (Item.rating b) = true
  else True.

(** Two items that the sort mode does not tell apart: names that collate
    equal, or ratings neither of which is less than the other. *)
Definition tied (localeCompare : string -> string -> Z) (sortBy : string)
    (a b : DatasetItem) : bool :=
  if String.eqb sortBy "name-asc" || String.eqb sortBy "name-desc" then
    (localeCompare (Item.name a) (Item.name b) =? 0)%Z
  else
    negb (JSNumber.ltb (Item.rating a) (Item.rating b))
    && negb (JSNumber.ltb (Item.rating b) (Item.rating a)).

(** The items that a sort mode can order: the rating modes need a rating
    that is a number in earnest. *)
Definition comparable (sortBy : string) (item : DatasetItem) : Prop :=
  sortBy = "rating-asc" \/ sortBy = "rating-desc" -> Item.rating item <> NaN.

Definition sortModes : list string :=
  ["name-asc"; "name-desc"; "rating-asc"; "rating-desc"].

(* ===================================================================== *)
(** * Facts about strings *)
(* ===================================================================== *)

Section StringFacts.

#[local] Ltac by_code_unit c :=
  destruct c as [[] [] [] [] [] [] [] []]; vm_compute; reflexivity.

Lemma isWhiteSpace_lowerUnit c : isWhiteSpace (lowerUnit c) = isWhiteSpace c.
Proof. by_code_unit c. Qed.

Lemma lowerUnit_idem c : lowerUnit (lowerUnit c) = lowerUnit c.
Proof. by_code_unit c. Qed.

Lemma toLowerCase_idem s : toLowerCase (toLowerCase s) = toLowerCase s.
Proof.
  induction s as [|c s IH]; simpl; [reflexivity|].
  now rewrite lowerUnit_idem, IH.
Qed.

Lemma toLowerCase_empty s : toLowerCase s = "" <-> s = "".
Proof. destruct s; simpl; split; congruence. Qed.

Lemma toLowerCase_trimStart s :
  toLowerCase (trimStart s) = trimStart (toLowerCase s).
Proof.
  induction s as [|c s IH]; simpl; [reflexivity|].
  rewrite isWhiteSpace_lowerUnit.
  destruct (isWhiteSpace c); [exact IH | reflexivity].
Qed.

Lemma toLowerCase_trimEnd s :
  toLowerCase (trimEnd s) = trimEnd (toLowerCase s).
Proof.
  induction s as [|c s IH]; simpl; [reflexivity|].
  rewrite <- IH, isWhiteSpace_lowerUnit.
  destruct (trimEnd s) as [|d r]; simpl.
  - destruct (isWhiteSpace c); reflexivity.
  - reflexivity.
Qed.

Lemma toLowerCase_trim s : toLowerCase (trim s) = trim (toLowerCase s).
Proof. unfold trim. now rewrite toLowerCase_trimEnd, toLowerCase_trimStart. Qed.

Lemma trimStart_noLeadingSpace s : noLeadingSpace (trimStart s).
Proof.
  induction s as [|c s IH]; simpl; [exact I|].
  destruct (isWhiteSpace c) eqn:E; [exact IH | exact E].
Qed.

Lemma trimStart_fixed s : noLeadingSpace s -> trimStart s = s.
Proof. destruct s as [|c s]; simpl; [reflexivity|]. now intros ->. Qed.

Lemma trimEnd_noLeadingSpace s : noLeadingSpace s -> noLeadingSpace (trimEnd s).
Proof.
  destruct s as [|c s]; simpl; [exact id|]. intros E.
  destruct (trimEnd s); [rewrite E|]; exact E.
Qed.

Lemma trimEnd_idem s : trimEnd (trimEnd s) = trimEnd s.
Proof.
  induction s as [|c s IH]; simpl; [reflexivity|].
  destruct (trimEnd s) as [|d r] eqn:E.
  - destruct (isWhiteSpace c) eqn:W; simpl; [reflexivity | now rewrite W].
  - change (trimEnd (String c (String d r)))
      with (match trimEnd (String d r) with
            | EmptyString => if isWhiteSpace c then EmptyString else String c EmptyString
            | r' => String c r'
            end).
    now rewrite IH.
Qed.

Lemma trim_idem s : trim (trim s) = trim s.
Proof.
  unfold trim.
  rewrite (trimStart_fixed (trimEnd (trimStart s))).
  - apply trimEnd_idem.
  - apply trimEnd_noLeadingSpace, trimStart_noLeadingSpace.
Qed.

(** Normalising an already normalised category changes nothing. *)
Lemma normalize_idem s :
  trim (toLowerCase (trim (toLowerCase s))) = trim (toLowerCase s).
Proof. now rewrite toLowerCase_trim, toLowerCase_idem, trim_idem. Qed.

(** A string is blank when it is blank after lower-casing. *)
Lemma trim_toLowerCase_empty s : trim (toLowerCase s) = "" <-> trim s = "".
Proof. rewrite <- toLowerCase_trim. apply toLowerCase_empty. Qed.

Lemma eqb_empty s : String.eqb s "" = true <-> s = "".
Proof. apply String.eqb_eq. Qed.

(** The guard [!s || s.trim() === ''] holds exactly of the blank strings. *)
Lemma blank_guard s :
  isFalsy s || String.eqb (trim s) "" = true <-> trim s = "".
Proof.
  unfold isFalsy. rewrite orb_true_iff, !String.eqb_eq. split.
  - intros [-> | H]; [reflexivity | exact H].
  - now right.
Qed.

Lemma append_cons c a b : String c a ++ b = String c (a ++ b).
Proof. reflexivity. Qed.

Lemma append_empty a : "" ++ a = a.
Proof. reflexivity. Qed.

Lemma prefix_spec p s : String.prefix p s = true <-> exists after, s = p ++ after.
Proof.
  revert s. induction p as [|c p IH]; intros s.
  - split; [intros _; now exists s | intros _; destruct s; reflexivity].
  - destruct s as [|d s]; cbn [String.prefix].
    + split; [discriminate | intros [after H]; discriminate].
    + destruct (Ascii.ascii_dec c d) as [->|N].
      * rewrite IH. split; intros [after H]; exists after;
          rewrite append_cons in *; congruence.
      * split; [discriminate | intros [after H]; rewrite append_cons in H; congruence].
Qed.

Lemma includes_spec s q : includes s q = true <-> isSubstring q s.
Proof.
  unfold isSubstring. induction s as [|c s IH].
  - cbn [includes]. rewrite orb_false_r, prefix_spec. split.
    + intros [after H]. now exists "", after.
    + intros [before [after H]]. destruct before; [now exists after | discriminate].
  - cbn [includes]. rewrite orb_true_iff, prefix_spec, IH. split.
    + intros [[after H] | [before [after H]]].
      * now exists "", after.
      * exists (String c before), after. rewrite append_cons. now rewrite H.
    + intros [before [after H]]. destruct before as [|d before].
      * left. now exists after.
      * right. rewrite append_cons in H. injection H as _ H. now exists before, after.
Qed.

End StringFacts.

(* ===================================================================== *)
(** * Facts about selections *)
(* ===================================================================== *)

Section SelectionFacts.
Context {A : Type}.

Lemma filter_Selects (f : A -> bool) (P : A -> Prop) (l : list A) :
  (forall x, f x = true <-> P x) -> Selects P l (List.filter f l).
Proof.
  intros Hf. induction l as [|x l IH]; simpl.
  - constructor.
  - destruct (f x) eqn:E.
    + apply Selects_keep; [now apply Hf | exact IH].
    + apply Selects_skip; [|exact IH]. rewrite <- Hf. congruence.
Qed.

Lemma Selects_all (P : A -> Prop) (l : list A) :
  (forall x, P x) -> Selects P l l.
Proof. intros HP. induction l; constructor; auto. Qed.

(** A selection determines its result. *)
Lemma Selects_functional (P : A -> Prop) (l k1 k2 : list A) :
  Selects P l k1 -> Selects P l k2 -> k1 = k2.
Proof.
  intros H1. revert k2. induction H1; intros k2 H2; inversion H2; subst;
    try reflexivity; try contradiction.
  - f_equal. now apply IHSelects.
  - now apply IHSelects.
Qed.

Lemma Selects_In (P : A -> Prop) (l k : list A) :
  Selects P l k -> forall x, In x k <-> In x l /\ P x.
Proof.
  induction 1 as [|y l k Py _ IH|y l k Py _ IH]; intros x; simpl.
  - tauto.
  - rewrite IH. split.
    + intros [->|[? ?]]; auto.
    + intros [[->|?] ?]; auto.
  - rewrite IH. split.
    + intros [? ?]; auto.
    + intros [[->|?] ?]; [contradiction | auto].
Qed.

End SelectionFacts.

(* ===================================================================== *)
(** * Search and filters *)
(* ===================================================================== *)

Lemma existsb_includes_spec (q : string) (tags : list string) :
  existsb (fun tag => includes (toLowerCase tag) q) tags = true
  <-> exists tag, In tag tags /\ isSubstring q (toLowerCase tag).
Proof.
  rewrite existsb_exists. split; intros [tag [Hin H]]; exists tag;
    (split; [exact Hin | now apply includes_spec]).
Qed.

Lemma searchItems_blank items q : trim q = "" -> searchItems items q = items.
Proof.
  intros H. unfold searchItems.
  now rewrite (proj2 (blank_guard q) H).
Qed.

Lemma searchItems_selects items q :
  Selects (matchesQuery (trim (toLowerCase q))) items (searchItems items q).
Proof.
  unfold searchItems.
  destruct (isFalsy q || String.eqb (trim q) "") eqn:G.
  - apply Selects_all. intros item. left.
    apply blank_guard in G. apply trim_toLowerCase_empty in G. rewrite G.
    now exists "", (toLowerCase (Item.name item)).
  - apply filter_Selects. intros item. unfold matchesQuery.
    rewrite !orb_true_iff, !includes_spec, existsb_includes_spec. tauto.
Qed.

(** C1. Every item that [searchItems] returns has the lower-cased, trimmed
    query as a substring of its lower-cased name, description or one of its
    lower-cased tags; the result is exactly the subsequence of the input with
    that property, in input order; and a blank query gives back the input. *)
Theorem searchItems_spec (items : list DatasetItem) (q : string) :
  (forall item, In item (searchItems items q) ->
                matchesQuery (trim (toLowerCase q)) item)
  /\ Selects (matchesQuery (trim (toLowerCase q))) items (searchItems items q)
  /\ (trim q = "" -> searchItems items q = items).
Proof.
  split; [|split].
  - intros item Hin.
    now apply (Selects_In _ _ _ (searchItems_selects items q)) in Hin.
  - apply searchItems_selects.
  - apply searchItems_blank.
Qed.

Lemma filterByCategory_blank items c :
  trim c = "" -> filterByCategory items c = items.
Proof.
  intros H. unfold filterByCategory.
  now rewrite (proj2 (blank_guard c) H).
Qed.

Lemma filterByCategory_selects items c :
  trim c <> "" ->
  Selects (fun item => sameIgnoringCaseAndSpace (Item.category item) c)
          items (filterByCategory items c).
Proof.
  intros H. unfold filterByCategory.
  destruct (isFalsy c || String.eqb (trim c) "") eqn:G.
  - now apply blank_guard in G.
  - apply filter_Selects. intros item. apply String.eqb_eq.
Qed.

(** Two requested categories that agree up to case and surrounding white
    space select the same items. *)
Lemma filterByCategory_insensitive items c c' :
  sameIgnoringCaseAndSpace c c' ->
  filterByCategory items c = filterByCategory items c'.
Proof.
  intros H. unfold sameIgnoringCaseAndSpace in H.
  destruct (String.eqb (trim c) "") eqn:E.
  - apply String.eqb_eq in E.
    rewrite (filterByCategory_blank items c E).
    symmetry. apply filterByCategory_blank.
    apply trim_toLowerCase_empty. rewrite <- H. now apply trim_toLowerCase_empty.
  - apply String.eqb_neq in E.
    assert (E' : trim c' <> "").
    { intros B. apply E. apply trim_toLowerCase_empty. rewrite H.
      now apply trim_toLowerCase_empty. }
    apply (Selects_functional
             (fun item => sameIgnoringCaseAndSpace (Item.category item) c) items).
    + now apply filterByCategory_selects.
    + pose proof (filterByCategory_selects items c' E') as S.
      unfold sameIgnoringCaseAndSpace in *. now rewrite H.
Qed.

(** C4. A blank category gives back the input; otherwise the items returned
    are exactly those whose category equals the requested one up to case and
    surrounding white space, so that "Fintech" and "FINTECH" give the same
    result. *)
Theorem filterByCategory_spec (items : list DatasetItem) (c : string) :
  (trim c = "" -> filterByCategory items c = items)
  /\ (trim c <> "" ->
      (forall item, In item (filterByCategory items c) <->
                    In item items /\ sameIgnoringCaseAndSpace (Item.category item) c)
      /\ Selects (fun item => sameIgnoringCaseAndSpace (Item.category item) c)
                 items (filterByCategory items c))
  /\ filterByCategory items "Fintech" = filterByCategory items "FINTECH".
Proof.
  split; [|split].
  - apply filterByCategory_blank.
  - intros H. pose proof (filterByCategory_selects items c H) as S. split.
    + intros item. apply (Selects_In _ _ _ S).
    + exact S.
  - apply filterByCategory_insensitive. reflexivity.
Qed.

Lemma carriesSomeTag_spec (requested : list string) (item : DatasetItem) :
  existsb (fun tag => existsb (String.eqb tag) (Item.tags item)) requested = true
  <-> carriesSomeTag requested item.
Proof.
  unfold carriesSomeTag. rewrite existsb_exists.
  split; intros [tag [Hin H]]; exists tag; (split; [exact Hin|]).
  - apply existsb_exists in H as [t [Ht E]]. apply String.eqb_eq in E. now subst.
  - apply existsb_exists. exists tag. split; [exact H | apply String.eqb_refl].
Qed.

(** C5. An empty tag list gives back the input; otherwise [filterByTags]
    keeps exactly the items that carry one of the requested tags verbatim.
    A requested tag that is only a part of an item's tag does not select the
    item, whereas [searchItems] finds the item by that part. *)
Theorem filterByTags_spec (items : list DatasetItem) (tags : list string) :
  (tags = [] -> filterByTags items (Some tags) = items)
  /\ (tags <> [] ->
      (forall item, In item (filterByTags items (Some tags)) <->
                    In item items /\ carriesSomeTag tags item)
      /\ Selects (carriesSomeTag tags) items (filterByTags items (Some tags)))
  /\ (filterByTags [itemA] (Some ["a"]) = []
      /\ filterByTags [itemA] (Some ["AI"]) = []
      /\ filterByTags [itemA] (Some ["ai"]) = [itemA]
      /\ searchItems [itemA] "i" = [itemA]
      /\ searchItems [itemA] "AI" = [itemA]).
Proof.
  split; [|split].
  - intros ->. reflexivity.
  - intros H.
    assert (S : Selects (carriesSomeTag tags) items (filterByTags items (Some tags))).
    { unfold filterByTags. destruct tags as [|t tags]; [contradiction|].
      cbn [length Nat.eqb]. apply filter_Selects. intros item.
      apply carriesSomeTag_spec. }
    split; [intros item; apply (Selects_In _ _ _ S) | exact S].
  - repeat split; vm_compute; reflexivity.
Qed.

(* ===================================================================== *)
(** * Category normaliser *)
(* ===================================================================== *)

Lemma find_first {A : Type} (p : A -> bool) (before : list A) (x : A) (after : list A) :
  (forall y, In y before -> p y = false) -> p x = true ->
  List.find p (before ++ x :: after)%list = Some x.
Proof.
  intros Hb Hx. induction before as [|y before IH]; simpl.
  - now rewrite Hx.
  - rewrite (Hb y (or_introl eq_refl)). apply IH. intros z Hz. apply Hb. now right.
Qed.

Lemma find_some_first {A : Type} (p : A -> bool) (l : list A) (x : A) :
  List.find p l = Some x ->
  exists before after,
    l = (before ++ x :: after)%list /\ p x = true
    /\ forall y, In y before -> p y = false.
Proof.
  induction l as [|y l IH]; simpl; [discriminate|].
  destruct (p y) eqn:E.
  - intros [= ->]. exists [], l. repeat split; [exact E | intros ? []].
  - intros H. destruct (IH H) as (before & after & -> & Hx & Hb).
    exists (y :: before), after. repeat split; [exact Hx|].
    intros z [<-|Hz]; [exact E | now apply Hb].
Qed.

(** What [findOriginalCategory] returns: the first category whose
    normalised form equals the normalised argument, provided that category
    is not the empty string. *)
Lemma findOriginalCategory_some normalized categories c :
  findOriginalCategory normalized categories = Some c <->
  c <> ""
  /\ exists before after,
       categories = (before ++ c :: after)%list
       /\ sameIgnoringCaseAndSpace c normalized
       /\ forall d, In d before -> ~ sameIgnoringCaseAndSpace d normalized.
Proof.
  unfold findOriginalCategory, sameIgnoringCaseAndSpace, isFalsy. split.
  - destruct (List.find _ categories) as [found|] eqn:F; [|discriminate].
    destruct (String.eqb found "") eqn:E; [discriminate|].
    intros [= ->]. apply String.eqb_neq in E. split; [exact E|].
    apply find_some_first in F as (before & after & -> & Hc & Hb).
    exists before, after. split; [reflexivity|]. split; [now apply String.eqb_eq|].
    intros d Hd. apply String.eqb_neq. now apply Hb.
  - intros (Hne & before & after & -> & Hc & Hb).
    rewrite (find_first _ before c after).
    + apply String.eqb_neq in Hne. now rewrite Hne.
    + intros d Hd. apply String.eqb_neq. now apply Hb.
    + now apply String.eqb_eq.
Qed.

Lemma findOriginalCategory_none normalized categories :
  (forall d, In d categories -> ~ sameIgnoringCaseAndSpace d normalized) ->
  findOriginalCategory normalized categories = None.
Proof.
  intros H. unfold findOriginalCategory.
  destruct (List.find _ categories) as [found|] eqn:F; [|reflexivity].
  apply find_some in F as [Hin E]. apply String.eqb_eq in E.
  now elim (H found Hin).
Qed.

Lemma round_trip_of_first (before : list string) (c : string) (after : list string) :
  c <> "" ->
  (forall d, In d before -> ~ sameIgnoringCaseAndSpace d c) ->
  findOriginalCategory (normalizeCategoryForUrl c) (before ++ c :: after)%list
  = Some c.
Proof.
  intros Hne Hfirst. apply findOriginalCategory_some. split; [exact Hne|].
  exists before, after. split; [reflexivity|].
  unfold sameIgnoringCaseAndSpace, normalizeCategoryForUrl.
  split.
  - symmetry. apply normalize_idem.
  - intros d Hd. rewrite normalize_idem. now apply Hfirst.
Qed.

Example round_trip_HealthTech :
  findOriginalCategory (normalizeCategoryForUrl "HealthTech")
                       ["Fintech"; "HealthTech"; "EdTech"]
  = Some "HealthTech".
Proof.
  apply (round_trip_of_first ["Fintech"] "HealthTech" ["EdTech"]).
  - discriminate.
  - intros d [<-|[]]. vm_compute. discriminate.
Qed.

(** C3, as the code has it.  The round trip gives back a category [c] of the
    list when [c] is not the empty string and no category before it has the
    same lower-cased, trimmed form.  The lookup returns the first category
    whose lower-cased, trimmed form equals that of the argument, when that
    category is not the empty string, and [null] when no category has that
    form. *)
Theorem findOriginalCategory_spec (categories : list string) :
  (forall before c after,
      categories = (before ++ c :: after)%list ->
      c <> "" ->
      (forall d, In d before -> ~ sameIgnoringCaseAndSpace d c) ->
      findOriginalCategory (normalizeCategoryForUrl c) categories = Some c)
  /\ (forall normalized before c after,
      categories = (before ++ c :: after)%list ->
      c <> "" ->
      sameIgnoringCaseAndSpace c normalized ->
      (forall d, In d before -> ~ sameIgnoringCaseAndSpace d normalized) ->
      findOriginalCategory normalized categories = Some c)
  /\ (forall normalized,
      (forall d, In d categories -> ~ sameIgnoringCaseAndSpace d normalized) ->
      findOriginalCategory normalized categories = None).
Proof.
  split; [|split].
  - intros before c after -> Hne Hfirst. now apply round_trip_of_first.
  - intros normalized before c after -> Hne Hc Hfirst.
    apply findOriginalCategory_some. split; [exact Hne|].
    now exists before, after.
  - intros normalized H. now apply findOriginalCategory_none.
Qed.

(** C3 as stated fails: of two categories that differ only in case, the
    round trip of the second gives back the first. *)
Lemma findOriginalCategory_round_trip_counterexample :
  In "fintech" ["Fintech"; "fintech"]
  /\ List.NoDup ["Fintech"; "fintech"]
  /\ findOriginalCategory (normalizeCategoryForUrl "fintech") ["Fintech"; "fintech"]
     = Some "Fintech"
  /\ Some "Fintech" <> Some "fintech".
Proof.
  split; [right; left; reflexivity|].
  split.
  - constructor; [|constructor; [intros []|constructor]].
    intros [H|[]]. discriminate.
  - split; [vm_compute; reflexivity | discriminate].
Qed.

(* ===================================================================== *)
(** * Facts about numbers *)
(* ===================================================================== *)

Section NumberFacts.
Import JSNumber.


Lemma ltb_Fin x y : ltb (Fin x) (Fin y) = true <-> (x < y)%Q.
Proof.
  simpl. rewrite negb_true_iff. split.
  - intros H. apply Qnot_le_lt. intros L. apply Qle_bool_iff in L. congruence.
  - intros H. destruct (Qle_bool y x) eqn:E; [|reflexivity].
    apply Qle_bool_iff in E. lra.
Qed.

End NumberFacts.

(* ===================================================================== *)
(** * Facts about binary64 rounding *)
(* ===================================================================== *)

Section DoubleFacts.
Import Double.



















(** The model agrees with the doubles on rounding half-way cases, on the
    subnormal numbers and at the overflow threshold. *)
Example round_examples :
  JSNumber.same (round (oneTenth + oneFifth))
                (Fin (5404319552844596 # 18014398509481984))
  /\ JSNumber.same (round (9007199254740993 # 1)) (Fin (9007199254740992 # 1))
  /\ JSNumber.same (round (9007199254740995 # 1)) (Fin (9007199254740996 # 1))
  /\ JSNumber.same (round (pow2 (-1075))) (Fin 0)
  /\ JSNumber.same (round (pow2 (-1075) + pow2 (-1080))) (Fin (pow2 (-1074)))
  /\ JSNumber.same (round (pow2 1024 - pow2 970)) PInf
  /\ JSNumber.same (round (pow2 1024 - pow2 970 - pow2 900))
                   (Fin (pow2 1024 - pow2 971)).
Proof.
  repeat match goal with |- _ /\ _ => split end; vm_compute; reflexivity.
Qed.

End DoubleFacts.

(* ===================================================================== *)
(** * Homepage statistics *)
(* ===================================================================== *)

Section StatisticsFacts.
Import JSNumber.





(** The statistics of the worked scenario: two items, two categories, two
    tags, average rating 3.25. *)
Example scenario_statistics :
  totalItems (calculateHomepageStatistics scenarioDataset) = 2%nat
  /\ totalCategories (calculateHomepageStatistics scenarioDataset) = 2%nat
  /\ totalTags (calculateHomepageStatistics scenarioDataset) = 2%nat
  /\ same (averageRating (calculateHomepageStatistics scenarioDataset)) (Fin 3.25).
Proof.
  split; [reflexivity|]. split; [reflexivity|]. split; [reflexivity|].
  vm_compute. reflexivity.
Qed.

End StatisticsFacts.

(* ===================================================================== *)
(** * Validator *)
(* ===================================================================== *)

Section ValidatorFacts.
Import JSNumber.
#[local] Arguments ltb : simpl never.
#[local] Arguments gtb : simpl never.

Lemma typeof_string v : String.eqb (typeof v) "string" = true <-> isString v.
Proof.
  unfold isString. destruct v; simpl; split;
    try discriminate; try (intros [s' H]; discriminate); eauto.
Qed.

Lemma every_string (elems : list jsval) :
  every (fun tag => String.eqb (typeof tag) "string") (JArr elems) = true
  <-> Forall isString elems.
Proof.
  simpl. rewrite forallb_forall, List.Forall_forall.
  split; intros H x Hx; apply typeof_string, H, Hx.
Qed.

Lemma range_check rating :
  ltb rating (Fin 0) || gtb rating (Fin 5) = true <-> belowOrAbove 0 5 rating.
Proof.
  destruct rating as [| | |x].
  - simpl. split; [discriminate | intros []].
  - simpl. tauto.
  - simpl. tauto.
  - cbn [belowOrAbove]. unfold gtb. rewrite orb_true_iff, !ltb_Fin. tauto.
Qed.

(** The range test rejects exactly the numbers other than NaN that are not
    in the interval. *)
Lemma belowOrAbove_spec lo hi a :
  belowOrAbove lo hi a <-> a <> NaN /\ ~ within lo hi a.
Proof.
  destruct a as [| | |x]; simpl.
  - split; [intros [] | intros [N _]; now apply N].
  - split; [intros _; split; [discriminate | exact id] | exact (fun _ => I)].
  - split; [intros _; split; [discriminate | exact id] | exact (fun _ => I)].
  - split.
    + intros H. split; [discriminate | lra].
    + intros [_ H]. destruct (Qlt_le_dec x lo) as [L|L]; [now left|].
      destruct (Qlt_le_dec hi x) as [G|G]; [now right|]. elim H. now split.
Qed.

(** The verdict on an object, with the loop unrolled. *)
#[local] Ltac unroll_isValidItem :=
  unfold isValidItem, requiredFields, checkField;
  cbn [truthy typeof negb orb andb forallb String.eqb Ascii.eqb Bool.eqb
       hasProperty getProperty].

#[local] Ltac split_field H field :=
  match type of H with
  | context [@lookup _ _ _ _ field ?m] =>
      let E := fresh "E" in
      destruct (@lookup _ _ _ _ field m) as [[]|] eqn:E; cbn in H; try discriminate H
  end.

(** Only an object passes: a primitive fails the first test and an array
    has no property [name]. *)
Lemma isValidItem_object candidate :
  isValidItem candidate = true -> exists props, candidate = JObj props.
Proof.
  destruct candidate; unroll_isValidItem; rewrite ?orb_true_r;
    try discriminate; eauto.
Qed.

Lemma isValidItem_accepted candidate :
  isValidItem candidate = true <-> acceptedItem candidate.
Proof.
  split.
  - intros H. destruct (isValidItem_object candidate H) as [props ->].
    revert H. unroll_isValidItem. intros H.
    split_field H "name". split_field H "category". split_field H "tags".
    destruct (forallb (fun tag => String.eqb (typeof tag) "string") elems) eqn:T;
      cbn in H; try discriminate H.
    split_field H "rating". split_field H "description".
    destruct (ltb n (Fin 0) || gtb n (Fin 5)) eqn:R; try discriminate H.
    do 6 eexists. repeat (split; [reflexivity || eassumption|]).
    split; [now apply every_string|]. split; [eassumption|].
    rewrite <- range_check. congruence.
  - intros (props & name & category & description & tags & rating
            & -> & Hn & Hc & Hd & Ht & Hs & Hr & Hrange).
    unroll_isValidItem. rewrite Hn, Hc, Hd, Ht, Hr. cbn.
    apply every_string in Hs. cbn in Hs. rewrite Hs. cbn.
    rewrite <- range_check in Hrange.
    destruct (ltb rating (Fin 0) || gtb rating (Fin 5)); [now elim Hrange | reflexivity].
Qed.

Lemma isValidItem_only_checked_fields (o o' : gmap string jsval) :
  (forall field, In field checkedFields -> o !! field = o' !! field) ->
  isValidItem (JObj o) = isValidItem (JObj o').
Proof.
  intros H. unroll_isValidItem.
  rewrite !(H "name"), !(H "category"), !(H "tags"), !(H "rating"),
    !(H "description"); [reflexivity|..]; simpl; tauto.
Qed.

Lemma invalidItemsFrom_all_valid (index : nat) (items : list jsval) :
  Forall (fun item => isValidItem item = true) items ->
  invalidItemsFrom index items = [].
Proof.
  intros H. revert index. induction H as [|item items Hi _ IH]; intros index; simpl.
  - reflexivity.
  - rewrite Hi. simpl. apply IH.
Qed.

Lemma isValidDataset_accepts (dataset : gmap string jsval) (items : list jsval) :
  datasetShaped dataset items ->
  Forall (fun item => isValidItem item = true) items ->
  isValidDataset (JObj dataset) = true.
Proof.
  intros (Hi & [type Ht] & [categories Hc] & [tags Hg]) Hall.
  unfold isValidDataset.
  cbn [truthy typeof negb orb String.eqb Ascii.eqb Bool.eqb hasProperty getProperty].
  rewrite Hi, Ht, Hc, Hg. cbn.
  now rewrite (invalidItemsFrom_all_valid 0 items Hall).
Qed.

(** C7.  The validator returns false for a candidate that is [null] or not
    of type object (and for an array, which has none of the fields), for a
    missing or wrongly typed field, for [tags] that is not an array of
    strings and for a rating that is a number other than NaN outside [0, 5];
    objects that agree on the five fields get the same verdict.  But a rating
    of NaN, which is not in [0, 5], is not rejected: the item [nanItem]
    passes. *)
Theorem isValidItem_rejections (candidate : jsval) :
  (isValidItem (JObj nanItem) = true
   /\ nanItem !! "rating" = Some (JNum NaN)
   /\ ~ within 0 5 NaN)
  /\ (candidate = JNull \/ typeof candidate <> "object" ->
      isValidItem candidate = false)
  /\ ((forall props, candidate <> JObj props) -> isValidItem candidate = false)
  /\ (forall props field,
        candidate = JObj props -> In field checkedFields ->
        props !! field = None -> isValidItem candidate = false)
  /\ (forall props field value,
        candidate = JObj props -> In field ["name"; "category"; "description"] ->
        props !! field = Some value -> ~ isString value ->
        isValidItem candidate = false)
  /\ (forall props value,
        candidate = JObj props -> props !! "tags" = Some value ->
        ~ (exists elems, value = JArr elems /\ Forall isString elems) ->
        isValidItem candidate = false)
  /\ (forall props value,
        candidate = JObj props -> props !! "rating" = Some value ->
        (forall n, value <> JNum n) -> isValidItem candidate = false)
  /\ (forall props rating,
        candidate = JObj props -> props !! "rating" = Some (JNum rating) ->
        rating <> NaN -> ~ within 0 5 rating -> isValidItem candidate = false)
  /\ (forall props props',
        candidate = JObj props ->
        (forall field, In field checkedFields -> props !! field = props' !! field) ->
        isValidItem (JObj props') = isValidItem candidate).
Proof.
  assert (Hrej : forall P : Prop, (acceptedItem candidate -> P -> False) ->
                                  P -> isValidItem candidate = false).
  { intros P HP p. destruct (isValidItem candidate) eqn:E; [|reflexivity].
    elim (HP (proj1 (isValidItem_accepted candidate) E) p). }
  split; [repeat split; exact id|].
  split; [|split; [|split; [|split; [|split; [|split; [|split]]]]]].
  - apply Hrej.
    intros (props & _ & _ & _ & _ & _ & -> & _) [H|H]; [discriminate | now apply H].
  - apply Hrej.
    intros (props & _ & _ & _ & _ & _ & -> & _) H. now elim (H props).
  - intros props field -> Hin Hnone. revert Hnone. apply Hrej.
    intros (o & name & category & description & tags & rating
            & [= <-] & Hn & Hc & Hd & Ht & _ & Hr & _) Hnone.
    simpl in Hin. intuition (subst; congruence).
  - intros props field value -> Hin Hv. apply Hrej.
    intros (o & name & category & description & tags & rating
            & [= <-] & Hn & Hc & Hd & _) Hs.
    apply Hs. unfold isString. simpl in Hin.
    destruct Hin as [<-|[<-|[<-|[]]]];
      [exists name | exists category | exists description]; congruence.
  - intros props value -> Hv. apply Hrej.
    intros (o & name & category & description & tags & rating
            & [= <-] & _ & _ & _ & Ht & Hs & _) Hno.
    apply Hno. exists tags. split; [congruence | exact Hs].
  - intros props value -> Hv. apply Hrej.
    intros (o & name & category & description & tags & rating
            & [= <-] & _ & _ & _ & _ & _ & Hr & _) Hno.
    apply (Hno rating). congruence.
  - intros props rating -> Hv Hnan. apply Hrej.
    intros (o & name & category & description & tags & rating'
            & [= <-] & _ & _ & _ & _ & _ & Hr & Hrange) Hout.
    apply Hrange. apply belowOrAbove_spec.
    assert (rating' = rating) by congruence. subst. now split.
  - intros props props' -> H. symmetry. now apply isValidItem_only_checked_fields.
Qed.

(** C10. An object with string [name], [category] and [description], an
    array of strings as [tags] and NaN as [rating] passes [isValidItem],
    although NaN is not in [0, 5]: NaN is of type number and is neither less
    than 0 nor greater than 5.  A well-shaped dataset that holds such an item
    among valid items passes [isValidDataset]. *)
Theorem isValidItem_accepts_NaN
    (props : gmap string jsval) (name category description : string)
    (tags : list jsval) :
  props !! "name" = Some (JStr name) ->
  props !! "category" = Some (JStr category) ->
  props !! "description" = Some (JStr description) ->
  props !! "tags" = Some (JArr tags) ->
  Forall isString tags ->
  props !! "rating" = Some (JNum NaN) ->
  isValidItem (JObj props) = true
  /\ ~ within 0 5 NaN
  /\ typeof (JNum NaN) = "number"
  /\ ltb NaN (Fin 0) || gtb NaN (Fin 5) = false
  /\ (forall dataset before after,
        datasetShaped dataset (before ++ JObj props :: after)%list ->
        Forall (fun item => isValidItem item = true) before ->
        Forall (fun item => isValidItem item = true) after ->
        isValidDataset (JObj dataset) = true).
Proof.
  intros Hn Hc Hd Ht Hs Hr.
  assert (Hvalid : isValidItem (JObj props) = true).
  { apply isValidItem_accepted.
    exists props, name, category, description, tags, NaN.
    repeat (split; [reflexivity || assumption|]). exact id. }
  split; [exact Hvalid|]. split; [exact id|]. split; [reflexivity|].
  split; [reflexivity|].
  intros dataset before after Hshape Hb Ha.
  apply (isValidDataset_accepts dataset _ Hshape).
  apply Forall_app. split; [exact Hb|]. now constructor.
Qed.

Lemma isValidItem_accepts_NaN_witness :
  isValidItem (JObj nanItem) = true
  /\ ~ within 0 5 NaN
  /\ typeof (JNum NaN) = "number"
  /\ ltb NaN (Fin 0) || gtb NaN (Fin 5) = false
  /\ (forall dataset before after,
        datasetShaped dataset (before ++ JObj nanItem :: after)%list ->
        Forall (fun item => isValidItem item = true) before ->
        Forall (fun item => isValidItem item = true) after ->
        isValidDataset (JObj dataset) = true).
Proof.
  apply (isValidItem_accepts_NaN nanItem "A" "X" "d" [JStr "ai"]);
    try reflexivity.
  constructor; [now exists "ai" | constructor].
Defined.

Example nanDataset_is_valid : isValidDataset (JObj nanDataset) = true.
Proof. vm_compute. reflexivity. Qed.

End ValidatorFacts.

(* ===================================================================== *)
(** * Dataset loader *)
(* ===================================================================== *)

Section LoaderFacts.

#[local] Ltac unroll_body :=
  unfold loadDatasetBody;
  cbn [truthy typeof negb orb andb String.eqb Ascii.eqb Bool.eqb getProperty isArray].

(** The [try] block returns exactly on the loadable sources, and then it
    returns the source itself. *)
Lemma loadDatasetBody_returns datasetJson d :
  snd (loadDatasetBody datasetJson) = Returns d <-> loadable datasetJson /\ d = datasetJson.
Proof.
  split.
  - unfold loadDatasetBody.
    destruct (truthy datasetJson) eqn:T; cbn [negb]; [|discriminate].
    destruct datasetJson as [| | | | | | | |elems|props];
      cbn [typeof negb String.eqb Ascii.eqb Bool.eqb]; try discriminate.
    cbn [getProperty].
    destruct (props !! "type") as [type|] eqn:Ety;
      cbn [default from_option id truthy negb snd]; [|discriminate].
    destruct (truthy type) eqn:Tty; cbn [negb snd]; [|discriminate].
    destruct (props !! "items") as [[]|] eqn:Ei;
      cbn [default from_option id isArray negb snd]; try discriminate.
    destruct (props !! "categories") as [[]|] eqn:Ec;
      cbn [default from_option id isArray negb snd]; try discriminate.
    destruct (props !! "tags") as [[]|] eqn:Et;
      cbn [default from_option id isArray negb snd]; try discriminate.
    intros [= <-]. split; [|reflexivity].
    do 5 eexists. repeat (split; [reflexivity || eassumption|]). eassumption.
  - intros [(props & type & items & categories & tags & -> & Ety & Tty & Ei & Ec & Et) ->].
    unroll_body. now rewrite Ety, Ei, Ec, Et; cbn; rewrite Tty.
Qed.

(** Otherwise the [try] block throws, with a message that is not empty. *)
Lemma loadDatasetBody_completes datasetJson :
  snd (loadDatasetBody datasetJson) = Returns datasetJson
  \/ exists message, message <> "" /\ snd (loadDatasetBody datasetJson) = Throws message.
Proof.
  unfold loadDatasetBody.
  repeat match goal with
         | |- context [if ?b then _ else _] => destruct b
         end; cbn [snd]; eauto; right; eexists; (split; [|reflexivity]); discriminate.
Qed.

(** Every run of the [try] block writes to the console. *)
Lemma loadDatasetBody_logs datasetJson :
  fst (loadDatasetBody datasetJson) <> [].
Proof.
  unfold loadDatasetBody.
  repeat match goal with
         | |- context [if ?b then _ else _] => destruct b
         end; discriminate.
Qed.

Lemma consoleWrite_cache entry st :
  cachedDataset (consoleWrite entry st) = cachedDataset st.
Proof. reflexivity. Qed.

Lemma consoleWrite_all_cache entries st :
  cachedDataset (fold_left (fun s e => consoleWrite e s) entries st) = cachedDataset st.
Proof.
  revert st. induction entries as [|e entries IH]; intros st; simpl; [reflexivity|].
  now rewrite IH.
Qed.

Lemma consoleWrite_all_console entries st :
  console (fold_left (fun s e => consoleWrite e s) entries st)
  = (console st ++ entries)%list.
Proof.
  revert st. induction entries as [|e entries IH]; intros st; simpl.
  - now rewrite app_nil_r.
  - rewrite IH. simpl. now rewrite <- app_assoc.
Qed.

(** [loadDataset] does not touch the cache. *)
Lemma loadDataset_cache datasetJson st :
  cachedDataset (fst (loadDataset datasetJson st)) = cachedDataset st.
Proof.
  unfold loadDataset. destruct (loadDatasetBody datasetJson) as [entries [d|message]];
    simpl; apply consoleWrite_all_cache.
Qed.

(** [loadDataset] writes to the console each time it runs. *)
Lemma loadDataset_logs datasetJson st :
  exists entries, entries <> []
    /\ console (fst (loadDataset datasetJson st)) = (console st ++ entries)%list.
Proof.
  unfold loadDataset. pose proof (loadDatasetBody_logs datasetJson) as L.
  destruct (loadDatasetBody datasetJson) as [entries [d|message]]; simpl in *.
  - exists entries. split; [exact L | apply consoleWrite_all_console].
  - exists (entries ++ [ConsoleError ("Failed to load dataset: " ++ message)])%list.
    split; [now destruct entries|].
    rewrite consoleWrite_all_console. now rewrite app_assoc.
Qed.

Lemma loadDataset_returns datasetJson st d :
  snd (loadDataset datasetJson st) = Returns d <-> loadable datasetJson /\ d = datasetJson.
Proof.
  rewrite <- loadDatasetBody_returns. unfold loadDataset.
  destruct (loadDatasetBody datasetJson) as [entries [d'|message]]; simpl;
    [tauto | split; discriminate].
Qed.

Lemma loadDataset_throws datasetJson st :
  ~ loadable datasetJson <->
  exists reason, reason <> ""
    /\ snd (loadDataset datasetJson st) = Throws ("Dataset loading failed: " ++ reason).
Proof.
  split.
  - intros N. destruct (loadDatasetBody_completes datasetJson) as [R|[message [Hne T]]].
    + apply loadDatasetBody_returns in R. tauto.
    + exists message. split; [exact Hne|]. unfold loadDataset.
      destruct (loadDatasetBody datasetJson) as [entries c]. simpl in T. now subst c.
  - intros [reason [_ T]] L.
    assert (R : snd (loadDataset datasetJson st) = Returns datasetJson)
      by now apply loadDataset_returns.
    congruence.
Qed.

(** The message of each failure, in the order of the tests. *)
Lemma loadDataset_messages (datasetJson : jsval) (st : process) :
  (truthy datasetJson = false ->
   snd (loadDataset datasetJson st)
   = Throws "Dataset loading failed: Dataset file is missing or empty. Please ensure data/dataset.json exists and contains valid data.")
  /\ (truthy datasetJson = true -> typeof datasetJson <> "object" ->
      snd (loadDataset datasetJson st)
      = Throws "Dataset loading failed: Dataset must be a valid JSON object")
  /\ (truthy datasetJson = true -> typeof datasetJson = "object" ->
      truthy (getProperty datasetJson "type") = false ->
      snd (loadDataset datasetJson st)
      = Throws ("Dataset loading failed: Dataset must have a "
                ++ quoted "type" ++ " field"))
  /\ (truthy datasetJson = true -> typeof datasetJson = "object" ->
      truthy (getProperty datasetJson "type") = true ->
      isArray (getProperty datasetJson "items") = false ->
      snd (loadDataset datasetJson st)
      = Throws ("Dataset loading failed: Dataset must have an "
                ++ quoted "items" ++ " array"))
  /\ (truthy datasetJson = true -> typeof datasetJson = "object" ->
      truthy (getProperty datasetJson "type") = true ->
      isArray (getProperty datasetJson "items") = true ->
      isArray (getProperty datasetJson "categories") = false ->
      snd (loadDataset datasetJson st)
      = Throws ("Dataset loading failed: Dataset must have a "
                ++ quoted "categories" ++ " array"))
  /\ (truthy datasetJson = true -> typeof datasetJson = "object" ->
      truthy (getProperty datasetJson "type") = true ->
      isArray (getProperty datasetJson "items") = true ->
      isArray (getProperty datasetJson "categories") = true ->
      isArray (getProperty datasetJson "tags") = false ->
      snd (loadDataset datasetJson st)
      = Throws ("Dataset loading failed: Dataset must have a "
                ++ quoted "tags" ++ " array")).
Proof.
  unfold loadDataset, loadDatasetBody.
  repeat split; intros;
    repeat match goal with
           | H : typeof _ <> _ |- _ => apply String.eqb_neq in H
           | H : typeof _ = _ |- _ => apply String.eqb_eq in H
           | H : _ = _ |- _ => rewrite H; clear H
           end; reflexivity.
Qed.

(** C8, as the code has it.  [loadDataset] returns the source itself when
    the source is an object whose [type] is truthy and whose [items],
    [categories] and [tags] are arrays; on every other source it throws an
    error whose message is "Dataset loading failed: " followed by the reason.
    It throws in particular when the source is falsy or not an object, when
    [type] is absent or falsy, and when [items], [categories] or [tags] is
    not an array; an absent field reads as [undefined], which is falsy and
    not an array. *)
Theorem loadDataset_spec (datasetJson : jsval) (st : process) :
  (loadable datasetJson <-> snd (loadDataset datasetJson st) = Returns datasetJson)
  /\ (~ loadable datasetJson <->
      exists reason, reason <> ""
        /\ snd (loadDataset datasetJson st) = Throws ("Dataset loading failed: " ++ reason))
  /\ (truthy datasetJson = false -> ~ loadable datasetJson)
  /\ (typeof datasetJson <> "object" -> ~ loadable datasetJson)
  /\ (truthy (getProperty datasetJson "type") = false -> ~ loadable datasetJson)
  /\ (forall field, In field ["items"; "categories"; "tags"] ->
        isArray (getProperty datasetJson field) = false -> ~ loadable datasetJson)
  /\ (forall props field, datasetJson = JObj props -> props !! field = None ->
        truthy (getProperty datasetJson field) = false
        /\ isArray (getProperty datasetJson field) = false).
Proof.
  split; [|split; [|split; [|split; [|split; [|split]]]]].
  - rewrite loadDataset_returns. tauto.
  - apply loadDataset_throws.
  - intros F (props & ? & ? & ? & ? & -> & _). discriminate.
  - intros F (props & ? & ? & ? & ? & -> & _). now apply F.
  - intros F (props & type & ? & ? & ? & -> & Ety & Tty & _).
    simpl in F. rewrite Ety in F. simpl in F. congruence.
  - intros field Hin F (props & ? & ? & ? & ? & -> & _ & _ & Ei & Ec & Et).
    simpl in Hin, F. destruct Hin as [<-|[<-|[<-|[]]]];
      [rewrite Ei in F | rewrite Ec in F | rewrite Et in F]; discriminate.
  - intros props field -> E. simpl. now rewrite E.
Qed.

(** C8 as stated fails both ways: a [type] that is not a string does not
    make [loadDataset] throw, and a [type] that is present and a string, the
    empty one, does. *)
Lemma loadDataset_type_counterexample :
  typeof (getProperty numericTypeDataset "type") = "number"
  /\ snd (loadDataset numericTypeDataset initialProcess) = Returns numericTypeDataset
  /\ typeof (getProperty emptyTypeDataset "type") = "string"
  /\ hasProperty "type" emptyTypeDataset = true
  /\ isArray (getProperty emptyTypeDataset "items") = true
  /\ isArray (getProperty emptyTypeDataset "categories") = true
  /\ isArray (getProperty emptyTypeDataset "tags") = true
  /\ snd (loadDataset emptyTypeDataset initialProcess)
     = Throws ("Dataset loading failed: Dataset must have a " ++ quoted "type" ++ " field").
Proof. repeat split; vm_compute; reflexivity. Qed.

Example loadDataset_scenario :
  snd (loadDataset scenarioJson initialProcess) = Returns scenarioJson
  /\ console (fst (loadDataset scenarioJson initialProcess))
     = [ConsoleLog "Dataset loaded successfully: 2 items, 2 categories"].
Proof. split; vm_compute; reflexivity. Qed.

End LoaderFacts.

(* ===================================================================== *)
(** * Dataset cache *)
(* ===================================================================== *)

Section CacheFacts.
Variable datasetJson : jsval.

Lemma loadable_truthy : loadable datasetJson -> truthy datasetJson = true.
Proof. now intros (props & ? & ? & ? & ? & -> & _). Qed.

Lemma loadable_not_null : loadable datasetJson -> datasetJson <> JNull.
Proof. now intros (props & ? & ? & ? & ? & -> & _). Qed.

(** A call on an empty cache runs [loadDataset] and keeps what it returns. *)
Lemma getDataset_miss st :
  cachedDataset st = JNull ->
  getDataset datasetJson st
  = match loadDataset datasetJson st with
    | (st1, Returns dataset) =>
        ({| console := console st1; cachedDataset := dataset |}, Returns dataset)
    | (st1, Throws message) => (st1, Throws message)
    end.
Proof. intros E. unfold getDataset. now rewrite E. Qed.

(** A call on a filled cache returns the cached value and changes nothing. *)
Lemma getDataset_hit st :
  cacheInvariant datasetJson st -> cachedDataset st <> JNull ->
  getDataset datasetJson st = (st, Returns (cachedDataset st)).
Proof.
  intros [E|[E L]] N; [contradiction|].
  unfold getDataset. now rewrite E, (loadable_truthy L).
Qed.

Lemma getDataset_invariant st :
  cacheInvariant datasetJson st ->
  cacheInvariant datasetJson (fst (getDataset datasetJson st)).
Proof.
  intros Inv. destruct Inv as [E|[E L]].
  - rewrite (getDataset_miss st E).
    pose proof (loadDataset_returns datasetJson st) as R.
    pose proof (loadDataset_cache datasetJson st) as C.
    destruct (loadDataset datasetJson st) as [st1 [d|message]]; simpl in *.
    + destruct (proj1 (R d) eq_refl) as [L ->]. now right.
    + left. congruence.
  - rewrite getDataset_hit.
    + now right.
    + now right.
    + rewrite E. now apply loadable_not_null.
Qed.

(** Of the exported functions only [getDataset] writes the cache. *)
Lemma callModule_cache st c :
  c <> CallGetDataset ->
  cachedDataset (fst (callModule datasetJson st c)) = cachedDataset st.
Proof.
  destruct c; simpl; try reflexivity; [|contradiction].
  intros _. pose proof (loadDataset_cache datasetJson st) as C.
  now destruct (loadDataset datasetJson st).
Qed.

Lemma getDataset_or_other (c : moduleCall) :
  c = CallGetDataset \/ c <> CallGetDataset.
Proof. destruct c; (now left) || (right; discriminate). Qed.

Lemma callModule_invariant st c :
  cacheInvariant datasetJson st ->
  cacheInvariant datasetJson (fst (callModule datasetJson st c)).
Proof.
  intros Inv. destruct (getDataset_or_other c) as [->|N].
  - simpl. pose proof (getDataset_invariant st Inv) as G.
    now destruct (getDataset datasetJson st).
  - unfold cacheInvariant. now rewrite (callModule_cache st c N).
Qed.

Lemma runCalls_snoc st calls c :
  runCalls datasetJson st (calls ++ [c])%list
  = fst (callModule datasetJson (runCalls datasetJson st calls) c).
Proof. unfold runCalls. now rewrite fold_left_app. Qed.

Lemma runCalls_invariant st calls :
  cacheInvariant datasetJson st ->
  cacheInvariant datasetJson (runCalls datasetJson st calls).
Proof.
  intros Inv. induction calls as [|c calls IH] using rev_ind; [exact Inv|].
  rewrite runCalls_snoc. now apply callModule_invariant.
Qed.

(** Once filled, the cache keeps its value. *)
Lemma callModule_keeps st c :
  cacheInvariant datasetJson st -> cachedDataset st <> JNull ->
  cachedDataset (fst (callModule datasetJson st c)) = cachedDataset st.
Proof.
  intros Inv N. destruct (getDataset_or_other c) as [->|Nc].
  - simpl. now rewrite (getDataset_hit st Inv N).
  - now apply callModule_cache.
Qed.

Lemma runCalls_keeps st calls :
  cacheInvariant datasetJson st -> cachedDataset st <> JNull ->
  cachedDataset (runCalls datasetJson st calls) = cachedDataset st.
Proof.
  intros Inv N. induction calls as [|c calls IH] using rev_ind; [reflexivity|].
  rewrite runCalls_snoc, callModule_keeps; [exact IH | now apply runCalls_invariant|].
  now rewrite IH.
Qed.

(** The cache is filled exactly when [getDataset] has been called on a
    loadable source. *)
Lemma runCalls_filled calls :
  cachedDataset (runCalls datasetJson initialProcess calls) <> JNull
  <-> In CallGetDataset calls /\ loadable datasetJson.
Proof.
  induction calls as [|c calls IH] using rev_ind.
  - simpl. split; [congruence | tauto].
  - rewrite runCalls_snoc, in_app_iff.
    set (st := runCalls datasetJson initialProcess calls) in *.
    assert (Inv : cacheInvariant datasetJson st)
      by (apply runCalls_invariant; now left).
    destruct (getDataset_or_other c) as [->|Nc].
    + destruct Inv as [E|[E L]].
      * simpl. rewrite (getDataset_miss st E).
        pose proof (loadDataset_returns datasetJson st) as R.
        pose proof (loadDataset_cache datasetJson st) as C.
        destruct (loadDataset datasetJson st) as [st1 [d|message]]; simpl in *.
        -- destruct (proj1 (R d) eq_refl) as [L ->].
           split; [intros _; split; [right; now left | exact L]|].
           intros _. now apply loadable_not_null.
        -- split; [congruence|]. intros [_ L].
           assert (X : Throws message = Returns datasetJson) by now apply R.
           discriminate.
      * rewrite callModule_keeps; [| now right | rewrite E; now apply loadable_not_null].
        rewrite E. split; [intros _; split; [right; now left | exact L]|].
        intros _. now apply loadable_not_null.
    + rewrite (callModule_cache st c Nc), IH. simpl. intuition congruence.
Qed.

(** C9.  At any point of a process, however the exported functions of the
    module have been called before: a call of [getDataset] on the empty cache
    that succeeds has run [loadDataset] and has stored its result, the source
    object, in the cache; once the cache is filled, every later call of
    [getDataset] returns that same value and changes nothing, the console
    included, so [loadDataset], every run of which writes to the console, is
    not run again; the cache is empty until the first successful call; no
    exported function but [getDataset] writes the cache, and the cached value
    stays what it was. *)
Theorem getDataset_memoizes (calls : list moduleCall) :
  let st := runCalls datasetJson initialProcess calls in
  (forall st1 d,
      cachedDataset st = JNull ->
      getDataset datasetJson st = (st1, Returns d) ->
      d = datasetJson
      /\ snd (loadDataset datasetJson st) = Returns d
      /\ console st1 = console (fst (loadDataset datasetJson st))
      /\ console st1 <> console st
      /\ cachedDataset st1 = d)
  /\ (cachedDataset st <> JNull ->
      forall later,
        getDataset datasetJson (runCalls datasetJson st later)
        = (runCalls datasetJson st later, Returns (cachedDataset st))
        /\ cachedDataset (runCalls datasetJson st later) = cachedDataset st
        /\ cachedDataset st = datasetJson)
  /\ (cachedDataset st <> JNull <-> In CallGetDataset calls /\ loadable datasetJson)
  /\ (forall c, c <> CallGetDataset ->
        cachedDataset (fst (callModule datasetJson st c)) = cachedDataset st)
  /\ (loadable datasetJson ->
      exists st1, getDataset datasetJson st = (st1, Returns datasetJson))
  /\ (forall st', console (fst (loadDataset datasetJson st')) <> console st').
Proof.
  intros st.
  assert (Inv : cacheInvariant datasetJson st)
    by (apply runCalls_invariant; now left).
  assert (Hlogs : forall st', console (fst (loadDataset datasetJson st')) <> console st').
  { intros st'. destruct (loadDataset_logs datasetJson st') as [entries [Hne Hlog]].
    rewrite Hlog. intros X. apply Hne. apply (app_inv_head (console st')).
    now rewrite app_nil_r. }
  split; [|split; [|split; [|split; [|split; [|exact Hlogs]]]]].
  - intros st1 d E. rewrite (getDataset_miss st E).
    pose proof (loadDataset_returns datasetJson st) as R.
    destruct (loadDataset_logs datasetJson st) as [entries [Hne Hlog]].
    destruct (loadDataset datasetJson st) as [st' [d'|message]]; simpl in *;
      [|discriminate].
    intros [= <- <-]. destruct (proj1 (R d') eq_refl) as [_ ->].
    repeat split. simpl. rewrite Hlog. intros X.
    apply Hne. apply (app_inv_head (console st)). now rewrite app_nil_r.
  - intros N later.
    assert (K : cachedDataset (runCalls datasetJson st later) = cachedDataset st)
      by now apply runCalls_keeps.
    split; [|split; [exact K|]].
    + rewrite <- K. apply getDataset_hit; [now apply runCalls_invariant | now rewrite K].
    + destruct Inv as [E|[E _]]; [contradiction | exact E].
  - apply runCalls_filled.
  - intros c Nc. now apply callModule_cache.
  - intros L. destruct Inv as [E|[E _]].
    + rewrite (getDataset_miss st E).
      assert (R : snd (loadDataset datasetJson st) = Returns datasetJson)
        by now apply loadDataset_returns.
      destruct (loadDataset datasetJson st) as [st' [d'|message]]; simpl in *;
        [|discriminate].
      injection R as ->. eauto.
    + exists st.
      assert (H : getDataset datasetJson st = (st, Returns (cachedDataset st))).
      { apply getDataset_hit; [now right|]. rewrite E. now apply loadable_not_null. }
      now rewrite E in H.
Qed.

End CacheFacts.

(** Two calls of [getDataset] in a fresh process: the first loads and logs,
    the second returns the cached object and logs nothing. *)
Example getDataset_twice :
  let '(st1, r1) := getDataset scenarioJson initialProcess in
  let '(st2, r2) := getDataset scenarioJson st1 in
  r1 = Returns scenarioJson /\ r2 = Returns scenarioJson
  /\ console st1 = [ConsoleLog "Dataset loaded successfully: 2 items, 2 categories"]
  /\ st2 = st1.
Proof. vm_compute. repeat split. Qed.

(* ===================================================================== *)
(** * The built-in sort *)
(* ===================================================================== *)

Section SortFacts.
Context {A : Type}.
Variable comparefn : A -> A -> number.

#[local] Abbreviation after := (sortsAfter comparefn).
#[local] Abbreviation insert := (insert comparefn).
#[local] Abbreviation sort := (sort comparefn).

Lemma filter_none (f : A -> bool) (l : list A) :
  (forall w, In w l -> f w = false) -> List.filter f l = [].
Proof.
  induction l as [|y l IH]; intros H; simpl; [reflexivity|].
  rewrite (H y (or_introl eq_refl)). apply IH. intros w Hw. apply H. now right.
Qed.

Lemma insert_cons x y rest :
  insert x (y :: rest) = if after y x then x :: y :: rest else y :: insert x rest.
Proof. reflexivity. Qed.

Lemma insert_permutation x l : Permutation (x :: l) (insert x l).
Proof.
  induction l as [|y l IH]; [reflexivity|].
  rewrite insert_cons. destruct (after y x); [reflexivity|].
  rewrite perm_swap. now apply perm_skip.
Qed.

Lemma sort_from_permutation l acc :
  Permutation (acc ++ l)%list (fold_left (fun sorted x => insert x sorted) l acc).
Proof.
  revert acc. induction l as [|x l IH]; intros acc; simpl.
  - now rewrite app_nil_r.
  - rewrite <- IH, <- insert_permutation. apply Permutation_sym, Permutation_middle.
Qed.

(** Whatever the comparator, sorting permutes. *)
Lemma sort_permutation l : Permutation l (sort l).
Proof. apply (sort_from_permutation l []). Qed.

(** ** Consistent comparators

    On the elements that satisfy [ok] the comparator orders consistently:
    two elements do not sort after each other, and not sorting after is
    transitive. *)
Variable ok : A -> Prop.
Hypothesis after_asym :
  forall x y, ok x -> ok y -> after x y = true -> after y x = false.
Hypothesis notAfter_trans :
  forall x y z, ok x -> ok y -> ok z ->
    after x y = false -> after y z = false -> after x z = false.

#[local] Abbreviation notAfter := (fun x y => after x y = false).
#[local] Abbreviation equal := (comparesEqual comparefn).

Lemma insert_ok x l : ok x -> Forall ok l -> Forall ok (insert x l).
Proof.
  intros Hx Hl. rewrite <- insert_permutation. now constructor.
Qed.

Lemma insert_sorted x l :
  ok x -> Forall ok l ->
  StronglySorted notAfter l -> StronglySorted notAfter (insert x l).
Proof.
  intros Hx Hl Hs. induction Hs as [|y l Hs IH Hy].
  - repeat constructor.
  - apply Forall_cons_iff in Hl as [Oy Ol].
    rewrite insert_cons. destruct (after y x) eqn:E.
    + constructor; [now constructor|].
      assert (Hxy : after x y = false) by now apply after_asym.
      constructor; [exact Hxy|].
      rewrite List.Forall_forall in *. intros z Hz.
      apply (notAfter_trans x y z); auto.
    + constructor; [now apply IH|].
      rewrite <- insert_permutation. now constructor.
Qed.

(** In a sorted list, everything from the first element that sorts after
    [x] on sorts after [x]. *)
Lemma sorted_tail_after x y l :
  ok x -> ok y -> Forall ok l ->
  StronglySorted notAfter (y :: l) -> after y x = true ->
  Forall (fun z => after z x = true) (y :: l).
Proof.
  intros Hx Hy Hl Hs E. constructor; [exact E|].
  apply StronglySorted_inv in Hs as [_ Hyl].
  rewrite List.Forall_forall in *. intros z Hz.
  destruct (after z x) eqn:F; [reflexivity|].
  rewrite (notAfter_trans y z x) in E by auto. discriminate.
Qed.

Lemma insert_equal z x l :
  ok z -> ok x -> Forall ok l -> StronglySorted notAfter l ->
  List.filter (equal z) (insert x l)
  = (List.filter (equal z) l ++ (if equal z x then [x] else []))%list.
Proof.
  intros Hz Hx Hl Hs. induction l as [|y l IH].
  - reflexivity.
  - apply Forall_cons_iff in Hl as [Oy Ol]. rewrite insert_cons.
    destruct (after y x) eqn:E.
    + destruct (equal z x) eqn:Q.
      * assert (N : List.filter (equal z) (y :: l) = []).
        { apply filter_none.
          pose proof (sorted_tail_after x y l Hx Oy Ol Hs E) as T.
          rewrite List.Forall_forall in T, Ol.
          intros w Hw. unfold comparesEqual.
          destruct (after z w) eqn:Zw; [reflexivity|]. simpl.
          apply negb_false_iff.
          destruct (after w z) eqn:Wz; [reflexivity|].
          unfold comparesEqual in Q. apply andb_true_iff in Q as [Q1 _].
          apply negb_true_iff in Q1.
          assert (Ow : ok w) by (destruct Hw as [<-|Hw]; auto).
          specialize (T w Hw).
          rewrite (notAfter_trans w z x) in T by auto. discriminate. }
        cbn [List.filter] in *. rewrite Q. fold (List.filter (equal z) (y :: l)).
        rewrite N. reflexivity.
      * cbn [List.filter]. rewrite Q. now rewrite app_nil_r.
    + cbn [List.filter]. rewrite IH; [|exact Ol | now apply StronglySorted_inv in Hs].
      destruct (equal z y); reflexivity.
Qed.

Lemma sort_from_sorted l acc :
  Forall ok acc -> Forall ok l -> StronglySorted notAfter acc ->
  StronglySorted notAfter (fold_left (fun sorted x => insert x sorted) l acc).
Proof.
  revert acc. induction l as [|x l IH]; intros acc Ha Hl Hs; simpl; [exact Hs|].
  apply Forall_cons_iff in Hl as [Ox Ol].
  apply IH; [now apply insert_ok | exact Ol | now apply insert_sorted].
Qed.

Lemma sort_from_equal z l acc :
  ok z -> Forall ok acc -> Forall ok l -> StronglySorted notAfter acc ->
  List.filter (equal z) (fold_left (fun sorted x => insert x sorted) l acc)
  = (List.filter (equal z) acc ++ List.filter (equal z) l)%list.
Proof.
  intros Hz. revert acc. induction l as [|x l IH]; intros acc Ha Hl Hs; simpl.
  - now rewrite app_nil_r.
  - apply Forall_cons_iff in Hl as [Ox Ol].
    rewrite IH; [| now apply insert_ok | exact Ol | now apply insert_sorted].
    rewrite insert_equal by assumption. rewrite <- app_assoc.
    destruct (equal z x); reflexivity.
Qed.

(** A consistent comparator sorts: no element sorts after a later one. *)
Lemma sort_sorted l : Forall ok l -> StronglySorted notAfter (sort l).
Proof. intros Hl. apply sort_from_sorted; [constructor | exact Hl | constructor]. Qed.

(** The sort is stable: the elements that compare equal to [z] come out in
    the order in which they went in. *)
Lemma sort_stable z l :
  ok z -> Forall ok l -> List.filter (equal z) (sort l) = List.filter (equal z) l.
Proof.
  intros Hz Hl.
  exact (sort_from_equal z l [] Hz (List.Forall_nil _) Hl (SSorted_nil _)).
Qed.

(** ** The result does not depend on the sorting algorithm

    Under a consistent comparator there is one sorted arrangement of a list
    that keeps tied elements in input order, so every stable sort returns
    what the insertion sort returns. *)
Lemma equal_refl z : ok z -> equal z z = true.
Proof.
  intros Hz. unfold comparesEqual.
  destruct (after z z) eqn:E; [|reflexivity].
  rewrite (after_asym z z Hz Hz E) in E. discriminate.
Qed.

Lemma equal_sym x y : equal x y = equal y x.
Proof. unfold comparesEqual. apply andb_comm. Qed.

Lemma sorted_arrangement_unique r1 r2 :
  Forall ok r1 -> Forall ok r2 ->
  StronglySorted notAfter r1 -> StronglySorted notAfter r2 ->
  (forall z, ok z -> List.filter (equal z) r1 = List.filter (equal z) r2) ->
  r1 = r2.
Proof.
  intros O1. revert r2.
  induction O1 as [|a r1 Oa O1 IH]; intros r2 O2 S1 S2 H.
  - destruct O2 as [|b r2 Ob O2]; [reflexivity|].
    specialize (H b Ob). cbn [List.filter] in H.
    rewrite (equal_refl b Ob) in H. discriminate.
  - destruct O2 as [|b r2 Ob O2].
    + specialize (H a Oa). cbn [List.filter] in H.
      rewrite (equal_refl a Oa) in H. discriminate.
    + apply StronglySorted_inv in S1 as [S1 F1].
      apply StronglySorted_inv in S2 as [S2 F2].
      assert (Hab : a = b).
      { pose proof (H a Oa) as Ha. pose proof (H b Ob) as Hb.
        cbn [List.filter] in Ha, Hb.
        rewrite (equal_refl a Oa) in Ha. rewrite (equal_refl b Ob) in Hb.
        rewrite (equal_sym b a) in Hb.
        destruct (equal a b) eqn:Q; [congruence|].
        assert (Ia : In a r2).
        { apply (proj1 (filter_In (equal a) a r2)). rewrite <- Ha. now left. }
        assert (Ib : In b r1).
        { apply (proj1 (filter_In (equal b) b r1)). rewrite Hb. now left. }
        rewrite List.Forall_forall in F1, F2.
        unfold comparesEqual in Q.
        rewrite (F1 b Ib), (F2 a Ia) in Q. discriminate. }
      subst b. f_equal. apply IH; try assumption.
      intros z Hz. specialize (H z Hz). cbn [List.filter] in H.
      destruct (equal z a); congruence.
Qed.

Lemma sort_unique l r :
  Forall ok l -> Permutation l r -> StronglySorted notAfter r ->
  (forall z, ok z -> List.filter (equal z) r = List.filter (equal z) l) ->
  r = sort l.
Proof.
  intros Hl Hp Hs Hst. apply sorted_arrangement_unique.
  - now rewrite <- Hp.
  - now rewrite <- (sort_permutation l).
  - exact Hs.
  - now apply sort_sorted.
  - intros z Hz. rewrite (Hst z Hz). symmetry. now apply sort_stable.
Qed.

End SortFacts.

Lemma StronglySorted_adjacentPairs {A : Type} (R : A -> A -> Prop) (l : list A) :
  StronglySorted R l -> adjacentPairs R l.
Proof.
  induction 1 as [|x l Hs IH Hx]; intros i a b Ha Hb; [discriminate|].
  destruct i as [|i]; simpl in *.
  - injection Ha as <-. rewrite List.Forall_forall in Hx. apply Hx.
    destruct l; [discriminate|]. injection Hb as <-. now left.
  - now apply (IH i).
Qed.

(* ===================================================================== *)
(** * The sort modes *)
(* ===================================================================== *)

Section ComparatorFacts.
Import JSNumber.

Lemma ltb_irrefl a : ltb a a = false.
Proof.
  destruct a as [| | |x]; try reflexivity.
  destruct (ltb (Fin x) (Fin x)) eqn:E; [|reflexivity].
  apply ltb_Fin in E. lra.
Qed.

Lemma ltb_asym a b : ltb a b = true -> ltb b a = false.
Proof.
  destruct a as [| | |x], b as [| | |y]; try reflexivity; try discriminate.
  intros H. apply ltb_Fin in H.
  destruct (ltb (Fin y) (Fin x)) eqn:E; [|reflexivity].
  apply ltb_Fin in E. lra.
Qed.

Lemma ltb_false_Fin x y : ltb (Fin x) (Fin y) = false <-> (y <= x)%Q.
Proof.
  split.
  - intros H. destruct (Qlt_le_dec x y) as [L|L]; [|exact L].
    apply ltb_Fin in L. congruence.
  - intros H. destruct (ltb (Fin x) (Fin y)) eqn:E; [|reflexivity].
    apply ltb_Fin in E. lra.
Qed.

(** On numbers other than NaN, not being less is transitive. *)
Lemma notLess_trans a b c :
  a <> NaN -> b <> NaN -> c <> NaN ->
  ltb a b = false -> ltb b c = false -> ltb a c = false.
Proof.
  destruct a as [| | |x], b as [| | |y], c as [| | |z];
    try reflexivity; try discriminate; try congruence.
  intros _ _ _. rewrite !ltb_false_Fin. lra.
Qed.

(** On numbers other than NaN, not being less is being greater or equal. *)
Lemma notLess_geb a b : a <> NaN -> b <> NaN -> ltb a b = false -> leb b a = true.
Proof.
  destruct a as [| | |x], b as [| | |y];
    try reflexivity; try discriminate; try congruence.
  intros _ _. rewrite ltb_false_Fin. apply Qle_bool_iff.
Qed.

(** The sign of a difference: for numbers other than NaN, [a - b] is
    positive exactly when [b < a]; a NaN difference (of two equal
    infinities) counts as zero. *)
Lemma difference_positive a b :
  a <> NaN -> b <> NaN ->
  gtb (match sub a b with NaN => Fin 0 | v => v end) (Fin 0) = ltb b a.
Proof.
  destruct a as [| | |x], b as [| | |y];
    try reflexivity; try congruence.
  intros _ _. unfold sub, neg, add, gtb.
  destruct (ltb (Fin y) (Fin x)) eqn:E.
  - apply ltb_Fin. apply ltb_Fin in E. lra.
  - apply ltb_false_Fin. apply ltb_false_Fin in E. lra.
Qed.

(** The sign of a collation result as the comparator reports it. *)
Lemma collation_positive (z : Z) :
  gtb (match compareNumber z with NaN => Fin 0 | v => v end) (Fin 0) = (0 <? z)%Z.
Proof.
  unfold compareNumber, gtb. destruct (0 <? z)%Z eqn:E.
  - apply ltb_Fin. apply Z.ltb_lt in E. change 0%Q with (inject_Z 0).
    now rewrite <- Zlt_Qlt.
  - apply ltb_false_Fin. apply Z.ltb_ge in E. change 0%Q with (inject_Z 0).
    now rewrite <- Zle_Qle.
Qed.

End ComparatorFacts.

Section CollationFacts.
Variable localeCompare : string -> string -> Z.
Hypothesis consistent : ConsistentCollation localeCompare.

Lemma collation_flip a b :
  (localeCompare a b <= 0 <-> 0 <= localeCompare b a)%Z.
Proof. destruct consistent as [S _]. specialize (S a b). lia. Qed.

Lemma collation_positive_asym a b :
  (0 <? localeCompare a b)%Z = true -> (0 <? localeCompare b a)%Z = false.
Proof.
  destruct consistent as [S _]. specialize (S a b).
  rewrite Z.ltb_lt, Z.ltb_ge. lia.
Qed.

Lemma collation_notPositive_trans a b c :
  (0 <? localeCompare a b)%Z = false -> (0 <? localeCompare b c)%Z = false ->
  (0 <? localeCompare a c)%Z = false.
Proof. destruct consistent as [_ T]. rewrite !Z.ltb_ge. apply T. Qed.

Lemma collation_tie a b :
  negb (0 <? localeCompare a b)%Z && negb (0 <? localeCompare b a)%Z
  = (localeCompare a b =? 0)%Z.
Proof.
  destruct consistent as [S _]. specialize (S a b).
  destruct (localeCompare a b =? 0)%Z eqn:E.
  - apply Z.eqb_eq in E. rewrite andb_true_iff, !negb_true_iff, !Z.ltb_ge. lia.
  - apply Z.eqb_neq in E. rewrite andb_false_iff, !negb_false_iff, !Z.ltb_lt. lia.
Qed.

End CollationFacts.

(** Code-unit order is a consistent collation. *)
Lemma string_compare_trans (a b c : string) :
  String.compare a b <> Gt -> String.compare b c <> Gt -> String.compare a c <> Gt.
Proof.
  revert b c. induction a as [|x a IH]; intros [|y b] [|z c]; simpl;
    try congruence.
  unfold Ascii.compare.
  destruct (N.compare_spec (N_of_ascii x) (N_of_ascii y)) as [Exy|Lxy|Gxy];
    destruct (N.compare_spec (N_of_ascii y) (N_of_ascii z)) as [Eyz|Lyz|Gyz];
    try congruence.
  - rewrite Exy, Eyz, N.compare_refl. apply IH.
  - intros _ _. rewrite Exy. apply N.compare_lt_iff in Lyz. now rewrite Lyz.
  - intros _ _. rewrite <- Eyz. apply N.compare_lt_iff in Lxy. now rewrite Lxy.
  - intros _ _. assert (L : (N_of_ascii x < N_of_ascii z)%N) by lia.
    apply N.compare_lt_iff in L. now rewrite L.
Qed.

Lemma codeUnitCompare_consistent : ConsistentCollation codeUnitCompare.
Proof.
  unfold codeUnitCompare. split.
  - intros a b. rewrite (String.compare_antisym a b).
    now destruct (String.compare b a).
  - intros a b c Hab Hbc.
    pose proof (string_compare_trans a b c) as T.
    destruct (String.compare a b); destruct (String.compare b c);
      destruct (String.compare a c); try lia; exfalso; apply T; congruence.
Qed.

Section SortModeFacts.
Import JSNumber.

(** From a consistent comparator to what a caller sees: neighbours in
    order, ties in input order. *)
Lemma sort_by_consistent {A : Type} (comparefn : A -> A -> number)
    (ok : A -> Prop) (R : A -> A -> Prop) (tie : A -> A -> bool) (l : list A) :
  (forall x y, ok x -> ok y ->
     sortsAfter comparefn x y = true -> sortsAfter comparefn y x = false) ->
  (forall x y z, ok x -> ok y -> ok z ->
     sortsAfter comparefn x y = false -> sortsAfter comparefn y z = false ->
     sortsAfter comparefn x z = false) ->
  (forall x y, ok x -> ok y -> sortsAfter comparefn x y = false -> R x y) ->
  (forall x y, ok x -> ok y -> comparesEqual comparefn x y = tie x y) ->
  Forall ok l ->
  adjacentPairs R (sort comparefn l)
  /\ forall z, ok z ->
       List.filter (tie z) (sort comparefn l) = List.filter (tie z) l.
Proof.
  intros Hasym Htrans HR Htie Hl.
  assert (Hsl : Forall ok (sort comparefn l))
    by now rewrite <- (sort_permutation comparefn l).
  split.
  - pose proof (StronglySorted_adjacentPairs _ _
                  (sort_sorted comparefn ok Hasym Htrans l Hl)) as Adj.
    intros i a b Ha Hb. rewrite List.Forall_forall in Hsl.
    apply HR; [| |now apply (Adj i)]; apply Hsl.
    + apply list_elem_of_In, list_elem_of_lookup. eauto.
    + apply list_elem_of_In, list_elem_of_lookup. eauto.
  - intros z Hz. rewrite List.Forall_forall in Hsl, Hl.
    rewrite <- (filter_ext_in (comparesEqual comparefn z) (tie z) (sort comparefn l))
      by (intros y Hy; apply Htie; auto).
    rewrite <- (filter_ext_in (comparesEqual comparefn z) (tie z) l)
      by (intros y Hy; apply Htie; auto).
    apply (sort_stable comparefn ok Hasym Htrans); [exact Hz|].
    now apply List.Forall_forall.
Qed.

(** Under the name modes every item is comparable; under every mode an
    item whose rating is in [0, 5], as the data model asks, is. *)
Lemma comparable_by_name (sortBy : string) (item : DatasetItem) :
  sortBy = "name-asc" \/ sortBy = "name-desc" -> comparable sortBy item.
Proof. intros [->| ->] [H|H]; discriminate H. Qed.

Lemma comparable_rated (sortBy : string) (item : DatasetItem) :
  within 0 5 (Item.rating item) -> comparable sortBy item.
Proof. intros W _ E. now rewrite E in W. Qed.

(** What [sortItems] leaves on the heap. *)
Lemma sortItems_heap localeCompare (h : heap) (items : ref)
    (elems : list DatasetItem) (sortBy : string) comparefn :
  h !! items = Some elems ->
  comparatorOf localeCompare sortBy = Some comparefn ->
  sortItems localeCompare h items sortBy
  = Some ((h ++ [sort comparefn elems])%list, length h).
Proof.
  intros Hi Hc. unfold sortItems, spread. rewrite Hi. cbv beta iota zeta.
  rewrite Hc. unfold sortInPlace.
  rewrite list_lookup_middle by reflexivity.
  rewrite insert_app_r_alt by reflexivity. now rewrite Nat.sub_diag.
Qed.

Lemma comparatorOf_mode localeCompare sortBy :
  In sortBy sortModes -> exists comparefn, comparatorOf localeCompare sortBy = Some comparefn.
Proof.
  intros [<-|[<-|[<-|[<-|[]]]]]; eexists; reflexivity.
Qed.

Variable localeCompare : string -> string -> Z.
Hypothesis consistent : ConsistentCollation localeCompare.

(** Each mode's comparator sorts the comparable items: neighbours are in
    the mode's order and tied items keep their input order. *)
Lemma sort_by_mode (sortBy : string) comparefn (l : list DatasetItem) :
  In sortBy sortModes ->
  comparatorOf localeCompare sortBy = Some comparefn ->
  Forall (comparable sortBy) l ->
  adjacentPairs (inOrder localeCompare sortBy) (sort comparefn l)
  /\ forall z, comparable sortBy z ->
       List.filter (tied localeCompare sortBy z) (sort comparefn l)
       = List.filter (tied localeCompare sortBy z) l.
Proof.
  intros [<-|[<-|[<-|[<-|[]]]]] [= <-];
    apply sort_by_consistent; unfold comparesEqual, sortsAfter, sortCompare,
      comparable, inOrder, tied; cbn [String.eqb Ascii.eqb Bool.eqb orb];
    intros x y.
  - intros _ _. rewrite !collation_positive. now apply collation_positive_asym.
  - intros z _ _ _. rewrite !collation_positive.
    now apply collation_notPositive_trans.
  - intros _ _. rewrite collation_positive, Z.ltb_ge. exact id.
  - intros _ _. rewrite !collation_positive. now apply collation_tie.
  - intros _ _. rewrite !collation_positive. now apply collation_positive_asym.
  - intros z _ _ _. rewrite !collation_positive. intros H1 H2.
    now apply (collation_notPositive_trans _ consistent _ (Item.name y)).
  - intros _ _. rewrite collation_positive, Z.ltb_ge.
    intros H. apply Z.le_ge. now apply collation_flip.
  - intros _ _. rewrite !collation_positive, andb_comm, (collation_tie _ consistent).
    destruct consistent as [S _]. specialize (S (Item.name x) (Item.name y)).
    destruct (Z.eqb_spec (localeCompare (Item.name y) (Item.name x)) 0);
      destruct (Z.eqb_spec (localeCompare (Item.name x) (Item.name y)) 0);
      try reflexivity; lia.
  - intros Hx Hy. rewrite !difference_positive by auto. apply ltb_asym.
  - intros z Hx Hy Hz. rewrite !difference_positive by auto.
    intros H1 H2. now apply (notLess_trans _ (Item.rating y)); auto.
  - intros Hx Hy. rewrite difference_positive by auto.
    apply notLess_geb; auto.
  - intros Hx Hy. rewrite !difference_positive by auto. apply andb_comm.
  - intros Hx Hy. rewrite !difference_positive by auto. apply ltb_asym.
  - intros z Hx Hy Hz. rewrite !difference_positive by auto.
    intros H1 H2. now apply (notLess_trans _ (Item.rating y)); auto.
  - intros Hx Hy. rewrite difference_positive by auto.
    unfold geb. apply notLess_geb; auto.
  - intros Hx Hy. now rewrite !difference_positive by auto.
Qed.

End SortModeFacts.

(** What [sortItems] does, for the items that the mode can compare.  For
    each of the four sort modes it returns a new array: its reference is
    fresh, the array behind [items] and every other array of the heap is left
    as it was, and the new array is a permutation of the input.  When the
    items are comparable under the mode (for the rating modes: no rating is
    NaN) every two neighbours of the result are in the mode's order and the
    items tied with any given item come out in their input order. *)
Lemma sortItems_comparable (localeCompare : string -> string -> Z)
    (h : heap) (items : ref) (elems : list DatasetItem) (sortBy : string) :
  ConsistentCollation localeCompare ->
  h !! items = Some elems ->
  In sortBy sortModes ->
  exists result,
    sortItems localeCompare h items sortBy = Some ((h ++ [result])%list, length h)
    /\ length h <> items
    /\ h !! length h = None
    /\ (h ++ [result])%list !! items = Some elems
    /\ (forall r, r <> length h -> (h ++ [result])%list !! r = h !! r)
    /\ Permutation elems result
    /\ (Forall (comparable sortBy) elems ->
        adjacentPairs (inOrder localeCompare sortBy) result
        /\ forall z, comparable sortBy z ->
             List.filter (tied localeCompare sortBy z) result
             = List.filter (tied localeCompare sortBy z) elems).
Proof.
  intros Hlc Hi Hmode.
  destruct (comparatorOf_mode localeCompare sortBy Hmode) as [comparefn Hc].
  exists (sort comparefn elems).
  assert (Hlt : items < length h) by (apply lookup_lt_is_Some; eauto).
  split; [now apply sortItems_heap|].
  split; [lia|].
  split; [now apply lookup_ge_None|].
  split; [now rewrite lookup_app_l|].
  split.
  - intros r Hr. destruct (Nat.lt_ge_cases r (length h)) as [L|G].
    + now rewrite lookup_app_l.
    + rewrite !lookup_ge_None_2; [reflexivity | lia |].
      rewrite length_app. simpl. lia.
  - split; [apply sort_permutation|].
    now apply sort_by_mode.
Qed.

(** C2.  For every array and each of the four sort modes [sortItems]
    returns a new array (its reference is fresh, the array behind [items] and
    every other array of the heap is left as it was) that is a permutation of
    the input.  For a collection of items of the data model, whose ratings
    lie in [0, 5], every two neighbours of the result are in the mode's order
    ([localeCompare <= 0] for name-asc, [>= 0] for name-desc, [<=] and [>=]
    on ratings for rating-asc and rating-desc) and the items tied with any
    item of the collection come out in their input order.  [localeCompare]
    is any consistent comparator, as the collation of the host is. *)
Theorem sortItems_spec (localeCompare : string -> string -> Z)
    (h : heap) (items : ref) (elems : list DatasetItem) (sortBy : string) :
  ConsistentCollation localeCompare ->
  h !! items = Some elems ->
  In sortBy sortModes ->
  exists result,
    sortItems localeCompare h items sortBy = Some ((h ++ [result])%list, length h)
    /\ length h <> items
    /\ h !! length h = None
    /\ (h ++ [result])%list !! items = Some elems
    /\ (forall r, r <> length h -> (h ++ [result])%list !! r = h !! r)
    /\ Permutation elems result
    /\ (Forall (fun item => JSNumber.within 0 5 (Item.rating item)) elems ->
        adjacentPairs (inOrder localeCompare sortBy) result
        /\ forall z, In z elems ->
             List.filter (tied localeCompare sortBy z) result
             = List.filter (tied localeCompare sortBy z) elems).
Proof.
  intros Hlc Hi Hmode.
  destruct (sortItems_comparable localeCompare h items elems sortBy Hlc Hi Hmode)
    as (result & R & Hfresh & Hnew & Hold & Hrest & Hperm & Hsorted).
  exists result. repeat (split; [assumption|]).
  intros Hvalid.
  assert (Hcomparable : Forall (comparable sortBy) elems).
  { eapply List.Forall_impl; [|exact Hvalid]. intros item. apply comparable_rated. }
  destruct (Hsorted Hcomparable) as [Hadjacent Hstable].
  split; [exact Hadjacent|]. intros z Hz. apply Hstable.
  rewrite List.Forall_forall in Hcomparable. now apply Hcomparable.
Qed.

(** Outside the data model the rating modes have nothing to order by: with
    a NaN rating, which [isValidItem] lets through, [N (NaN); B (2)] sorted
    by ascending rating comes back in that order, and in neither order do the
    two ratings satisfy [<=]. *)
Example sortItems_NaN_rating :
  sortItems codeUnitCompare [[nanRatedItem; itemB]] 0 "rating-asc"
  = Some ([[nanRatedItem; itemB]; [nanRatedItem; itemB]], 1%nat)
  /\ ~ adjacentPairs (inOrder codeUnitCompare "rating-asc") [nanRatedItem; itemB]
  /\ ~ adjacentPairs (inOrder codeUnitCompare "rating-asc") [itemB; nanRatedItem].
Proof.
  split; [vm_compute; reflexivity|].
  split; intros H; specialize (H 0%nat _ _ eq_refl eq_refl); discriminate H.
Qed.

(** The worked scenario, sorted by ascending rating under code-unit
    collation: [A (4.5); B (2)] comes out as [B; A]. *)
Lemma sortItems_spec_witness :
  exists result,
    sortItems codeUnitCompare [[itemA; itemB]] 0 "rating-asc"
    = Some (([[itemA; itemB]] ++ [result])%list, length [[itemA; itemB]])
    /\ length [[itemA; itemB]] <> 0%nat
    /\ [[itemA; itemB]] !! length [[itemA; itemB]] = None
    /\ ([[itemA; itemB]] ++ [result])%list !! 0%nat = Some [itemA; itemB]
    /\ (forall r, r <> length [[itemA; itemB]] ->
                  ([[itemA; itemB]] ++ [result])%list !! r = [[itemA; itemB]] !! r)
    /\ Permutation [itemA; itemB] result
    /\ (Forall (fun item => JSNumber.within 0 5 (Item.rating item)) [itemA; itemB] ->
        adjacentPairs (inOrder codeUnitCompare "rating-asc") result
        /\ forall z, In z [itemA; itemB] ->
             List.filter (tied codeUnitCompare "rating-asc" z) result
             = List.filter (tied codeUnitCompare "rating-asc" z) [itemA; itemB]).
Proof.
  apply (sortItems_spec codeUnitCompare [[itemA; itemB]] 0 [itemA; itemB] "rating-asc").
  - exact codeUnitCompare_consistent.
  - reflexivity.
  - simpl. tauto.
Defined.

Example sortItems_scenario :
  sortItems codeUnitCompare [[itemA; itemB]] 0 "rating-desc"
  = Some ([[itemA; itemB]; [itemA; itemB]], 1%nat)
  /\ sortItems codeUnitCompare [[itemA; itemB]] 0 "rating-asc"
     = Some ([[itemA; itemB]; [itemB; itemA]], 1%nat)
  /\ sortItems codeUnitCompare [[itemB; itemA]] 0 "name-asc"
     = Some ([[itemB; itemA]; [itemA; itemB]], 1%nat)
  /\ sortItems codeUnitCompare [[itemA; itemB]] 0 "name-desc"
     = Some ([[itemA; itemB]; [itemB; itemA]], 1%nat).
Proof. repeat split; vm_compute; reflexivity. Qed.

(** The other scenario checks: search by "ai" and filter by category "x"
    both give A alone. *)
Example scenario_search_and_filter :
  searchItems [itemA; itemB] "ai" = [itemA]
  /\ filterByCategory [itemA; itemB] "x" = [itemA].
Proof. split; vm_compute; reflexivity. Qed.

(* ===================================================================== *)
(** * More on the search and the filters *)
(* ===================================================================== *)

Section PipelineFacts.
Import JSNumber.

(** Each step of the pipeline keeps the items that pass a test which does
    not depend on the other items. *)
Lemma searchItems_as_filter q :
  exists p, forall items, searchItems items q = List.filter p items.
Proof.
  unfold searchItems. destruct (isFalsy q || String.eqb (trim q) "").
  - exists (fun _ => true). intros items. symmetry.
    apply forallb_filter_id, forallb_forall. reflexivity.
  - eexists. reflexivity.
Qed.

Lemma filterByCategory_as_filter c :
  exists p, forall items, filterByCategory items c = List.filter p items.
Proof.
  unfold filterByCategory. destruct (isFalsy c || String.eqb (trim c) "").
  - exists (fun _ => true). intros items. symmetry.
    apply forallb_filter_id, forallb_forall. reflexivity.
  - eexists. reflexivity.
Qed.

Lemma filterByTags_as_filter tags :
  exists p, forall items, filterByTags items tags = List.filter p items.
Proof.
  unfold filterByTags. destruct tags as [tags|].
  - destruct (length tags =? 0)%nat.
    + exists (fun _ => true). intros items. symmetry.
      apply forallb_filter_id, forallb_forall. reflexivity.
    + eexists. reflexivity.
  - exists (fun _ => true). intros items. symmetry.
    apply forallb_filter_id, forallb_forall. reflexivity.
Qed.

Lemma filterByMinRating_as_filter m :
  exists p, forall items, filterByMinRating items m = List.filter p items.
Proof.
  unfold filterByMinRating. destruct (leb m (Fin 0)).
  - exists (fun _ => true). intros items. symmetry.
    apply forallb_filter_id, forallb_forall. reflexivity.
  - eexists. reflexivity.
Qed.

Lemma filter_swap {A : Type} (p q : A -> bool) (l : list A) :
  List.filter p (List.filter q l) = List.filter q (List.filter p l).
Proof.
  induction l as [|x l IH]; simpl; [reflexivity|].
  destruct (p x) eqn:P, (q x) eqn:Q; simpl; rewrite ?P, ?Q, IH; reflexivity.
Qed.

Lemma filter_twice {A : Type} (p : A -> bool) (l : list A) :
  List.filter p (List.filter p l) = List.filter p l.
Proof.
  induction l as [|x l IH]; simpl; [reflexivity|].
  destruct (p x) eqn:P; simpl; rewrite ?P, IH; reflexivity.
Qed.

#[local] Ltac as_filters :=
  repeat match goal with
         | |- context [searchItems _ ?q] =>
             let p := fresh "p" in let H := fresh "H" in
             destruct (searchItems_as_filter q) as [p H]; rewrite !H; clear H
         | |- context [filterByCategory _ ?c] =>
             let p := fresh "p" in let H := fresh "H" in
             destruct (filterByCategory_as_filter c) as [p H]; rewrite !H; clear H
         | |- context [filterByTags _ ?t] =>
             let p := fresh "p" in let H := fresh "H" in
             destruct (filterByTags_as_filter t) as [p H]; rewrite !H; clear H
         | |- context [filterByMinRating _ ?m] =>
             let p := fresh "p" in let H := fresh "H" in
             destruct (filterByMinRating_as_filter m) as [p H]; rewrite !H; clear H
         end.

(** The four steps can be applied in any order, and applying a step twice
    is applying it once. *)
Theorem pipeline_steps_commute (items : list DatasetItem)
    (q c : string) (tags : option (list string)) (m : number) :
  searchItems (filterByCategory items c) q = filterByCategory (searchItems items q) c
  /\ searchItems (filterByTags items tags) q = filterByTags (searchItems items q) tags
  /\ searchItems (filterByMinRating items m) q
     = filterByMinRating (searchItems items q) m
  /\ filterByCategory (filterByTags items tags) c
     = filterByTags (filterByCategory items c) tags
  /\ filterByCategory (filterByMinRating items m) c
     = filterByMinRating (filterByCategory items c) m
  /\ filterByTags (filterByMinRating items m) tags
     = filterByMinRating (filterByTags items tags) m
  /\ searchItems (searchItems items q) q = searchItems items q
  /\ filterByCategory (filterByCategory items c) c = filterByCategory items c
  /\ filterByTags (filterByTags items tags) tags = filterByTags items tags
  /\ filterByMinRating (filterByMinRating items m) m = filterByMinRating items m.
Proof.
  repeat split; as_filters; (apply filter_swap || apply filter_twice).
Qed.

(** [filterByMinRating]: a threshold that is not positive gives back the
    input; a positive threshold keeps, in order, the items rated at least the
    threshold; a NaN threshold keeps nothing. *)
Theorem filterByMinRating_spec (items : list DatasetItem) (minRating : number) :
  (leb minRating (Fin 0) = true -> filterByMinRating items minRating = items)
  /\ (forall m, minRating = Fin m -> (0 < m)%Q ->
        Selects (fun item =>
                   Item.rating item = PInf
                   \/ exists r, Item.rating item = Fin r /\ (m <= r)%Q)
                items (filterByMinRating items minRating))
  /\ (minRating = NaN -> filterByMinRating items minRating = []).
Proof.
  split; [|split].
  - intros H. unfold filterByMinRating. now rewrite H.
  - intros m -> Hm. unfold filterByMinRating.
    assert (E : leb (Fin m) (Fin 0) = false).
    { simpl. destruct (Qle_bool m 0) eqn:E; [|reflexivity].
      apply Qle_bool_iff in E. lra. }
    rewrite E. apply filter_Selects. intros item. unfold geb.
    destruct (Item.rating item) as [| | |r]; simpl.
    + split; [discriminate | intros [H|[r [H _]]]; discriminate].
    + split; [now left | reflexivity].
    + split; [discriminate | intros [H|[r [H _]]]; discriminate].
    + rewrite Qle_bool_iff. split.
      * intros H. right. now exists r.
      * intros [H|[r' [[= <-] H]]]; [discriminate | exact H].
  - intros ->. unfold filterByMinRating. cbn [leb].
    apply filter_none. intros item _. unfold geb. reflexivity.
Qed.

End PipelineFacts.

Section SearchFacts.

Lemma append_assoc3 (a b c : string) : (a ++ b) ++ c = a ++ (b ++ c).
Proof.
  induction a as [|x a IH]; [reflexivity|].
  rewrite !append_cons. now rewrite IH.
Qed.

Lemma append_empty_r (a : string) : a ++ "" = a.
Proof.
  induction a as [|x a IH]; [reflexivity|]. rewrite append_cons. now rewrite IH.
Qed.

Lemma isSubstring_refl s : isSubstring s s.
Proof. exists "", "". now rewrite append_empty, append_empty_r. Qed.

Lemma isSubstring_trans a b c :
  isSubstring a b -> isSubstring b c -> isSubstring a c.
Proof.
  intros (p1 & s1 & ->) (p2 & s2 & ->).
  exists (p2 ++ p1), (s1 ++ s2). now rewrite !append_assoc3.
Qed.

Lemma trimStart_suffix s : exists before, s = before ++ trimStart s.
Proof.
  induction s as [|c s [before IH]]; [now exists ""|].
  simpl. destruct (isWhiteSpace c).
  - exists (String c before). rewrite append_cons. now rewrite <- IH.
  - now exists "".
Qed.

Lemma trimEnd_prefix s : exists after, s = trimEnd s ++ after.
Proof.
  induction s as [|c s [after IH]]; [now exists ""|].
  simpl. destruct (trimEnd s) as [|d r] eqn:E.
  - destruct (isWhiteSpace c).
    + exists (String c s). reflexivity.
    + exists s. reflexivity.
  - exists after. rewrite append_cons. now rewrite <- IH.
Qed.

(** What [trim] leaves is a part of the string. *)
Lemma trim_isSubstring s : isSubstring (trim s) s.
Proof.
  unfold trim. destruct (trimStart_suffix s) as [before Hb].
  destruct (trimEnd_prefix (trimStart s)) as [after Ha].
  exists before, after. now rewrite <- Ha.
Qed.

Lemma matchesQuery_narrows a b item :
  isSubstring a b -> matchesQuery b item -> matchesQuery a item.
Proof.
  intros Hab [H|[H|[tag [Hin H]]]].
  - left. now apply (isSubstring_trans a b).
  - right. left. now apply (isSubstring_trans a b).
  - right. right. exists tag. split; [exact Hin|]. now apply (isSubstring_trans a b).
Qed.

Lemma searchItems_In items q item :
  In item (searchItems items q)
  <-> In item items /\ matchesQuery (trim (toLowerCase q)) item.
Proof. apply (Selects_In _ _ _ (searchItems_selects items q)). Qed.

(** Every item is found by its own name, by its own description and by each
    of its tags, whatever their case and surrounding white space. *)
Theorem searchItems_finds_own (items : list DatasetItem) (item : DatasetItem) :
  In item items ->
  In item (searchItems items (Item.name item))
  /\ In item (searchItems items (Item.description item))
  /\ forall tag, In tag (Item.tags item) -> In item (searchItems items tag).
Proof.
  intros Hin. repeat split; try intros tag Htag; apply searchItems_In;
    (split; [exact Hin|]).
  - left. apply trim_isSubstring.
  - right. left. apply trim_isSubstring.
  - right. right. exists tag. split; [exact Htag | apply trim_isSubstring].
Qed.

Lemma searchItems_finds_own_witness :
  In itemA (searchItems [itemA; itemB] (Item.name itemA))
  /\ In itemA (searchItems [itemA; itemB] (Item.description itemA))
  /\ forall tag, In tag (Item.tags itemA) -> In itemA (searchItems [itemA; itemB] tag).
Proof. apply (searchItems_finds_own [itemA; itemB] itemA). now left. Defined.

(** Two queries that agree up to case and surrounding white space give the
    same result. *)
Theorem searchItems_insensitive (items : list DatasetItem) (q q' : string) :
  sameIgnoringCaseAndSpace q q' -> searchItems items q = searchItems items q'.
Proof.
  intros H. unfold sameIgnoringCaseAndSpace in H.
  apply (Selects_functional (matchesQuery (trim (toLowerCase q))) items).
  - apply searchItems_selects.
  - rewrite H. apply searchItems_selects.
Qed.

Lemma searchItems_insensitive_witness :
  searchItems [itemA; itemB] "  AI " = searchItems [itemA; itemB] "ai".
Proof. apply searchItems_insensitive. reflexivity. Defined.

(** A longer query narrows the result: if the normalised query [q] is a part
    of the normalised query [q'], the result for [q'] is the result of
    searching for [q'] within the result for [q]. *)
Theorem searchItems_narrows (items : list DatasetItem) (q q' : string) :
  isSubstring (trim (toLowerCase q)) (trim (toLowerCase q')) ->
  searchItems items q' = searchItems (searchItems items q) q'
  /\ forall item, In item (searchItems items q') -> In item (searchItems items q).
Proof.
  intros Hsub.
  assert (Hin : forall item, In item (searchItems items q') ->
                             In item (searchItems items q)).
  { intros item H. apply searchItems_In in H as [Hi Hm]. apply searchItems_In.
    split; [exact Hi|]. now apply (matchesQuery_narrows _ _ item Hsub). }
  split; [|exact Hin].
  destruct (searchItems_as_filter q) as [p Hp].
  destruct (searchItems_as_filter q') as [p' Hp'].
  rewrite !Hp', Hp. rewrite filter_swap.
  symmetry. apply forallb_filter_id, forallb_forall.
  intros item H. rewrite <- Hp' in H. apply Hin in H.
  rewrite Hp in H. now apply filter_In in H.
Qed.

Lemma searchItems_narrows_witness :
  searchItems [itemA; itemB] "ai" = searchItems (searchItems [itemA; itemB] "a") "ai"
  /\ forall item, In item (searchItems [itemA; itemB] "ai") ->
                  In item (searchItems [itemA; itemB] "a").
Proof. apply searchItems_narrows. now exists "", "i". Defined.

End SearchFacts.

Section FilterFacts.

Lemma filterByTags_In items tags item :
  tags <> [] ->
  In item (filterByTags items (Some tags)) <-> In item items /\ carriesSomeTag tags item.
Proof.
  intros H. unfold filterByTags. destruct tags as [|t tags]; [contradiction|].
  cbn [length Nat.eqb]. rewrite filter_In. now rewrite carriesSomeTag_spec.
Qed.

(** The tag filter is a disjunction over the requested tags: with two
    non-empty selections, an item is kept for their union exactly when it is
    kept for one of them; so selecting one more tag never removes an item. *)
Theorem filterByTags_union (items : list DatasetItem) (tags1 tags2 : list string)
    (item : DatasetItem) :
  tags1 <> [] -> tags2 <> [] ->
  (In item (filterByTags items (Some (tags1 ++ tags2)%list))
   <-> In item (filterByTags items (Some tags1))
       \/ In item (filterByTags items (Some tags2))).
Proof.
  intros H1 H2.
  assert (H12 : (tags1 ++ tags2)%list <> []) by (destruct tags1; [contradiction|discriminate]).
  rewrite !filterByTags_In by assumption. unfold carriesSomeTag. split.
  - intros [Hi [tag [Ht Hc]]]. apply in_app_or in Ht as [Ht|Ht];
      [left | right]; (split; [exact Hi | now exists tag]).
  - intros [[Hi [tag [Ht Hc]]]|[Hi [tag [Ht Hc]]]]; (split; [exact Hi|]);
      exists tag; (split; [apply in_or_app; auto | exact Hc]).
Qed.

Lemma filterByTags_union_witness :
  In itemA (filterByTags [itemA; itemB] (Some (["ai"] ++ ["ml"])%list))
  <-> In itemA (filterByTags [itemA; itemB] (Some ["ai"]))
      \/ In itemA (filterByTags [itemA; itemB] (Some ["ml"])).
Proof. apply filterByTags_union; discriminate. Defined.

Lemma filterByCategory_In items c item :
  trim c <> "" ->
  In item (filterByCategory items c)
  <-> In item items /\ sameIgnoringCaseAndSpace (Item.category item) c.
Proof. intros H. apply (Selects_In _ _ _ (filterByCategory_selects items c H)). Qed.

(** The category filter sorts the items into classes: every item is in the
    result for its own category, and the results for two non-blank
    categories with different lower-cased, trimmed forms share no item. *)
Theorem filterByCategory_classes (items : list DatasetItem) :
  (forall item, In item items -> In item (filterByCategory items (Item.category item)))
  /\ (forall c c' item,
        trim c <> "" -> trim c' <> "" -> ~ sameIgnoringCaseAndSpace c c' ->
        In item (filterByCategory items c) ->
        ~ In item (filterByCategory items c')).
Proof.
  split.
  - intros item Hin. destruct (String.eqb (trim (Item.category item)) "") eqn:E.
    + apply String.eqb_eq in E. now rewrite filterByCategory_blank.
    + apply String.eqb_neq in E. apply filterByCategory_In; [exact E|].
      split; [exact Hin | reflexivity].
  - intros c c' item Hc Hc' Hne H H'.
    apply filterByCategory_In in H as [_ H]; [|exact Hc].
    apply filterByCategory_In in H' as [_ H']; [|exact Hc'].
    apply Hne. unfold sameIgnoringCaseAndSpace in *. congruence.
Qed.

End FilterFacts.

(* ===================================================================== *)
(** * More on sorting *)
(* ===================================================================== *)

Section MoreSortFacts.
Import JSNumber.
Variable localeCompare : string -> string -> Z.
Hypothesis consistent : ConsistentCollation localeCompare.

(** On comparable items every mode's comparator is consistent. *)
Lemma comparator_consistent (sortBy : string) comparefn :
  comparatorOf localeCompare sortBy = Some comparefn ->
  (forall x y, comparable sortBy x -> comparable sortBy y ->
     sortsAfter comparefn x y = true -> sortsAfter comparefn y x = false)
  /\ (forall x y z, comparable sortBy x -> comparable sortBy y -> comparable sortBy z ->
        sortsAfter comparefn x y = false -> sortsAfter comparefn y z = false ->
        sortsAfter comparefn x z = false).
Proof.
  unfold comparatorOf.
  destruct (String.eqb_spec sortBy "name-asc") as [->|_];
    [|destruct (String.eqb_spec sortBy "name-desc") as [->|_];
      [|destruct (String.eqb_spec sortBy "rating-asc") as [->|_];
        [|destruct (String.eqb_spec sortBy "rating-desc") as [->|_];
          [|discriminate]]]];
    intros [= <-]; unfold sortsAfter, sortCompare, comparable; split.
  - intros x y _ _. rewrite !collation_positive. now apply collation_positive_asym.
  - intros x y z _ _ _. rewrite !collation_positive.
    now apply collation_notPositive_trans.
  - intros x y _ _. rewrite !collation_positive. now apply collation_positive_asym.
  - intros x y z _ _ _. rewrite !collation_positive. intros H1 H2.
    now apply (collation_notPositive_trans _ consistent _ (Item.name y)).
  - intros x y Hx Hy. rewrite !difference_positive by auto. apply ltb_asym.
  - intros x y z Hx Hy Hz. rewrite !difference_positive by auto.
    intros H1 H2. now apply (notLess_trans _ (Item.rating y)); auto.
  - intros x y Hx Hy. rewrite !difference_positive by auto. apply ltb_asym.
  - intros x y z Hx Hy Hz. rewrite !difference_positive by auto.
    intros H1 H2. now apply (notLess_trans _ (Item.rating y)); auto.
Qed.

(** Sorting what is sorted changes nothing. *)
Lemma sort_sorted_again (sortBy : string) comparefn (l : list DatasetItem) :
  comparatorOf localeCompare sortBy = Some comparefn ->
  Forall (comparable sortBy) l ->
  sort comparefn (sort comparefn l) = sort comparefn l.
Proof.
  intros Hc Hl. destruct (comparator_consistent sortBy comparefn Hc) as [Ha Ht].
  assert (Hs : Forall (comparable sortBy) (sort comparefn l))
    by now rewrite <- (sort_permutation comparefn l).
  symmetry. apply (sort_unique comparefn (comparable sortBy) Ha Ht).
  - exact Hs.
  - reflexivity.
  - now apply (sort_sorted comparefn (comparable sortBy) Ha Ht).
  - reflexivity.
Qed.

(** Sorting is idempotent: [sortItems] applied to its own result, with the
    same mode, returns a second new array with the same contents in the same
    order. *)
Theorem sortItems_twice (h : heap) (items : ref) (elems : list DatasetItem)
    (sortBy : string) :
  h !! items = Some elems ->
  In sortBy sortModes ->
  Forall (comparable sortBy) elems ->
  exists result,
    sortItems localeCompare h items sortBy = Some ((h ++ [result])%list, length h)
    /\ sortItems localeCompare (h ++ [result])%list (length h) sortBy
       = Some ((h ++ [result; result])%list, S (length h)).
Proof.
  intros Hi Hmode Hl.
  destruct (comparatorOf_mode localeCompare sortBy Hmode) as [comparefn Hc].
  exists (sort comparefn elems). split; [now apply sortItems_heap|].
  rewrite (sortItems_heap localeCompare _ (length h) (sort comparefn elems) sortBy comparefn).
  - rewrite (sort_sorted_again sortBy comparefn elems Hc Hl).
    rewrite <- app_assoc, length_app. simpl. now rewrite Nat.add_1_r.
  - now apply list_lookup_middle.
  - exact Hc.
Qed.

End MoreSortFacts.

Lemma sortItems_twice_witness :
  exists result,
    sortItems codeUnitCompare [[itemA; itemB]] 0 "rating-asc"
    = Some (([[itemA; itemB]] ++ [result])%list, length [[itemA; itemB]])
    /\ sortItems codeUnitCompare ([[itemA; itemB]] ++ [result])%list
         (length [[itemA; itemB]]) "rating-asc"
       = Some (([[itemA; itemB]] ++ [result; result])%list, S (length [[itemA; itemB]])).
Proof.
  apply (sortItems_twice codeUnitCompare codeUnitCompare_consistent
           [[itemA; itemB]] 0 [itemA; itemB] "rating-asc").
  - reflexivity.
  - simpl. tauto.
  - repeat constructor; intros _; discriminate.
Defined.

(** A sort mode that is none of the four takes the default branch: the
    result is a new array with the items in input order, and no array of the
    heap is written. *)
Theorem sortItems_unknown_mode (localeCompare : string -> string -> Z)
    (h : heap) (items : ref) (elems : list DatasetItem) (sortBy : string) :
  h !! items = Some elems ->
  ~ In sortBy sortModes ->
  sortItems localeCompare h items sortBy = Some ((h ++ [elems])%list, length h).
Proof.
  intros Hi Hmode. unfold sortItems, spread. rewrite Hi. cbv beta iota zeta.
  unfold comparatorOf.
  destruct (String.eqb_spec sortBy "name-asc") as [->|_]; [elim Hmode; simpl; tauto|].
  destruct (String.eqb_spec sortBy "name-desc") as [->|_]; [elim Hmode; simpl; tauto|].
  destruct (String.eqb_spec sortBy "rating-asc") as [->|_]; [elim Hmode; simpl; tauto|].
  destruct (String.eqb_spec sortBy "rating-desc") as [->|_]; [elim Hmode; simpl; tauto|].
  reflexivity.
Qed.

Lemma sortItems_unknown_mode_witness :
  sortItems codeUnitCompare [[itemB; itemA]] 0 "newest"
  = Some (([[itemB; itemA]] ++ [[itemB; itemA]])%list, length [[itemB; itemA]]).
Proof.
  apply sortItems_unknown_mode; [reflexivity|].
  simpl. intros [H|[H|[H|[H|[]]]]]; discriminate H.
Defined.

(* ===================================================================== *)
(** * More on the category normaliser *)
(* ===================================================================== *)

(** Normalising is idempotent, and the lookup takes a category in either
    form: normalised for a URL or as it is. *)
Theorem normalizeCategoryForUrl_idempotent (category : string) :
  normalizeCategoryForUrl (normalizeCategoryForUrl category)
  = normalizeCategoryForUrl category
  /\ forall categories,
       findOriginalCategory (normalizeCategoryForUrl category) categories
       = findOriginalCategory category categories.
Proof.
  unfold normalizeCategoryForUrl. split; [apply normalize_idem|].
  intros categories. unfold findOriginalCategory. now rewrite normalize_idem.
Qed.

(** What the lookup returns is a category of the list, not the empty string,
    that equals the argument up to case and surrounding white space; and when
    the list holds no empty string the lookup returns [null] only if no
    category equals the argument in that sense. *)
Theorem findOriginalCategory_sound (normalized : string) (categories : list string) :
  (forall c, findOriginalCategory normalized categories = Some c ->
             In c categories /\ c <> "" /\ sameIgnoringCaseAndSpace c normalized)
  /\ (~ In "" categories ->
      (findOriginalCategory normalized categories = None
       <-> forall c, In c categories -> ~ sameIgnoringCaseAndSpace c normalized)).
Proof.
  split.
  - intros c H. apply findOriginalCategory_some in H
      as (Hne & before & after & -> & Hc & _).
    split; [apply in_or_app; right; now left | now split].
  - intros Hno. split.
    + intros Hnone c Hin Hc.
      unfold findOriginalCategory in Hnone.
      destruct (List.find _ categories) as [found|] eqn:F.
      * apply find_some in F as [Hf _].
        destruct (isFalsy found) eqn:E; [|discriminate].
        apply String.eqb_eq in E. subst. contradiction.
      * apply (find_none _ _ F) in Hin. apply String.eqb_neq in Hin.
        now apply Hin.
    + apply findOriginalCategory_none.
Qed.

(* ===================================================================== *)
(** * More on the validator *)
(* ===================================================================== *)

Section MoreValidatorFacts.

Lemma invalidItemsFrom_none (index : nat) (items : list jsval) :
  invalidItemsFrom index items = [] ->
  Forall (fun item => isValidItem item = true) items.
Proof.
  revert index. induction items as [|item items IH]; intros index H; [constructor|].
  cbn [invalidItemsFrom] in H.
  destruct (isValidItem item) eqn:V; cbn [negb] in H; [|discriminate H].
  constructor; [exact V | now apply (IH (S index))].
Qed.

Lemma isValidDataset_inv (dataset : jsval) :
  isValidDataset dataset = true ->
  exists props items,
    dataset = JObj props /\ datasetShaped props items
    /\ Forall (fun item => isValidItem item = true) items.
Proof.
  intros H. destruct dataset as [| | | |s| | | |elems|props];
    try (now vm_compute in H).
  - unfold isValidDataset in H. cbn [typeof] in H.
    change (String.eqb "boolean" "object") with false in H.
    cbn [negb] in H. now rewrite orb_true_r in H.
  - unfold isValidDataset in H. cbn [typeof] in H.
    change (String.eqb "number" "object") with false in H.
    cbn [negb] in H. now rewrite orb_true_r in H.
  - unfold isValidDataset in H. cbn [typeof] in H.
    change (String.eqb "string" "object") with false in H.
    cbn [negb] in H. now rewrite orb_true_r in H.
  - unfold isValidDataset in H. cbn [typeof] in H.
    change (String.eqb "bigint" "object") with false in H.
    cbn [negb] in H. now rewrite orb_true_r in H.
  - revert H. unfold isValidDataset.
    cbn [truthy typeof negb orb String.eqb Ascii.eqb Bool.eqb hasProperty getProperty].
    intros H.
    destruct (props !! "items") as [[]|] eqn:Ei; cbn in H; try discriminate H.
    destruct (props !! "type") as [[]|] eqn:Et; cbn in H; try discriminate H.
    destruct (props !! "categories") as [[]|] eqn:Ec; cbn in H; try discriminate H.
    destruct (props !! "tags") as [[]|] eqn:Eg; cbn in H; try discriminate H.
    exists props, elems. split; [reflexivity|]. split.
    + unfold datasetShaped. eauto 10.
    + apply (invalidItemsFrom_none 0).
      now destruct (invalidItemsFrom 0 elems).
Qed.

(** [isValidDataset] is all or nothing: it accepts exactly the objects that
    have an array [items], a string [type], an array [categories] and an
    array [tags], and all of whose items pass [isValidItem].  What the
    [categories] and [tags] arrays hold is not looked at. *)
Theorem isValidDataset_spec (dataset : jsval) :
  isValidDataset dataset = true
  <-> exists props items,
        dataset = JObj props /\ datasetShaped props items
        /\ Forall (fun item => isValidItem item = true) items.
Proof.
  split; [apply isValidDataset_inv|].
  intros (props & items & -> & Hshape & Hall).
  now apply (isValidDataset_accepts props items).
Qed.

(** The diagnostic list [invalidItems] holds exactly the positions of the
    items that fail [isValidItem], counted from the start index. *)
Lemma invalidItemsFrom_spec (index : nat) (items : list jsval) (i : nat) :
  In i (invalidItemsFrom index items)
  <-> exists k item, i = (index + k)%nat /\ items !! k = Some item
                     /\ isValidItem item = false.
Proof.
  revert index. induction items as [|x items IH]; intros index.
  - simpl. split; [intros [] | intros (k & item & _ & H & _); discriminate].
  - cbn [invalidItemsFrom]. destruct (isValidItem x) eqn:V; cbn [negb].
    + rewrite IH. split.
      * intros (k & item & -> & Hk & Hv). exists (S k), item.
        repeat split; [lia | exact Hk | exact Hv].
      * intros (k & item & -> & Hk & Hv). destruct k as [|k].
        -- simpl in Hk. injection Hk as <-. congruence.
        -- exists k, item. repeat split; [lia | exact Hk | exact Hv].
    + cbn [In]. rewrite IH. split.
      * intros [<-|(k & item & -> & Hk & Hv)].
        -- exists 0%nat, x. repeat split; [lia | exact V].
        -- exists (S k), item. repeat split; [lia | exact Hk | exact Hv].
      * intros (k & item & -> & Hk & Hv). destruct k as [|k].
        -- left. lia.
        -- right. exists k, item. repeat split; [lia | exact Hk | exact Hv].
Qed.

(** The validator and the loader do not agree.  A dataset that the
    validator accepts is loaded exactly when its [type] is not the empty
    string; a dataset that is loaded is valid exactly when its [type] is a
    string and all its items are valid, neither of which the loader tests. *)
Theorem validator_and_loader (dataset : jsval) (st : process) :
  (isValidDataset dataset = true ->
   exists type, getProperty dataset "type" = JStr type
     /\ (snd (loadDataset dataset st) = Returns dataset <-> type <> ""))
  /\ (snd (loadDataset dataset st) = Returns dataset ->
      (isValidDataset dataset = true
       <-> isString (getProperty dataset "type")
           /\ Forall (fun item => isValidItem item = true)
                     (elements (getProperty dataset "items")))).
Proof.
  split.
  - intros H. apply isValidDataset_inv in H
      as (props & items & -> & (Hi & [type Ht] & [cats Hc] & [tags Hg]) & Hall).
    exists type. split; [simpl; now rewrite Ht|].
    rewrite loadDataset_returns. split.
    + intros [(props' & ty & ? & ? & ? & [= <-] & Ety & Tty & _) _] ->.
      rewrite Ht in Ety. injection Ety as <-. discriminate Tty.
    + intros Hne. split; [|reflexivity].
      exists props, (JStr type), items, cats, tags.
      repeat split; try assumption. simpl.
      apply String.eqb_neq in Hne. now rewrite Hne.
  - intros H. apply loadDataset_returns in H
      as [(props & type & items & cats & tags & -> & Ety & Tty & Ei & Ec & Eg) _].
    simpl. rewrite Ety, Ei. simpl. split.
    + intros V. apply isValidDataset_inv in V
        as (props' & items' & [= <-] & (Hi & [ty Ht] & _) & Hall).
      rewrite Ei in Hi. injection Hi as <-. rewrite Ety in Ht. injection Ht as ->.
      split; [now exists ty | exact Hall].
    + intros [[ty ->] Hall]. apply (isValidDataset_accepts props items); [|exact Hall].
      unfold datasetShaped. eauto 10.
Qed.

End MoreValidatorFacts.

(* ===================================================================== *)
(** * More on the loader and the cache *)
(* ===================================================================== *)

Section FailedLoads.

Variable datasetJson : jsval.

(** A failing [try] block writes one error line and throws its message. *)
Lemma loadDatasetBody_fails :
  ~ loadable datasetJson ->
  exists line reason,
    loadDatasetBody datasetJson = ([ConsoleError line], Throws reason).
Proof.
  intros N.
  assert (R : snd (loadDatasetBody datasetJson) <> Returns datasetJson).
  { intros R. apply loadDatasetBody_returns in R. tauto. }
  revert R. unfold loadDatasetBody.
  repeat match goal with
         | |- context [if ?b then _ else _] => destruct b
         end; cbn [snd]; eauto; congruence.
Qed.

(** A failure is not cached.  When the source is not loadable then, after
    any sequence of calls on the module, the cache is still [null] and a
    call of [getDataset] runs the loader again: it writes the same two error
    lines to the console, throws the same error and leaves the cache
    [null]. *)
Theorem getDataset_retries_failure :
  ~ loadable datasetJson ->
  exists line reason,
    forall calls,
      let st := runCalls datasetJson initialProcess calls in
      cachedDataset st = JNull
      /\ getDataset datasetJson st
         = ({| console := (console st
                           ++ [ConsoleError line;
                               ConsoleError ("Failed to load dataset: " ++ reason)])%list;
               cachedDataset := JNull |},
            Throws ("Dataset loading failed: " ++ reason)).
Proof.
  intros N. destruct (loadDatasetBody_fails N) as (line & reason & B).
  exists line, reason. intros calls st.
  assert (E : cachedDataset st = JNull).
  { destruct (runCalls_invariant datasetJson initialProcess calls) as [E|[_ L]];
      [now left | exact E | contradiction]. }
  split; [exact E|].
  rewrite (getDataset_miss datasetJson st E). unfold loadDataset. rewrite B.
  cbn [fold_left]. unfold consoleWrite. cbn [console cachedDataset].
  rewrite E, <- app_assoc. reflexivity.
Qed.

End FailedLoads.

(** The JSON value [null] is such a source. *)
Lemma getDataset_retries_failure_witness :
  ~ loadable JNull
  /\ exists line reason,
       forall calls,
         let st := runCalls JNull initialProcess calls in
         cachedDataset st = JNull
         /\ getDataset JNull st
            = ({| console := (console st
                              ++ [ConsoleError line;
                                  ConsoleError ("Failed to load dataset: " ++ reason)])%list;
                  cachedDataset := JNull |},
               Throws ("Dataset loading failed: " ++ reason)).
Proof.
  assert (N : ~ loadable JNull)
    by (intros (props & type & items & categories & tags & E & _); discriminate E).
  split; [exact N | exact (getDataset_retries_failure JNull N)].
Defined.

(* ===================================================================== *)
(** * The star row *)
(* ===================================================================== *)

Section StarFacts.
Import JSNumber JSMath.

Lemma arrayOfLength_integer (x : Q) (k : Z) :
  (x == inject_Z k)%Q ->
  arrayOfLength (Fin x)
  = if (0 <=? k)%Z && (k <? 2 ^ 32)%Z then Some (Z.to_nat k) else None.
Proof.
  intros E. unfold arrayOfLength.
  assert (F : Qfloor x = k) by (rewrite E; apply Qfloor_Z).
  rewrite F. apply Qeq_bool_iff in E. rewrite E. reflexivity.
Qed.

Lemma arrayOfLength_negative (x : Q) :
  (x < 0)%Q -> arrayOfLength (Fin x) = None.
Proof.
  intros H. unfold arrayOfLength.
  assert (K : (Qfloor x < 0)%Z).
  { rewrite Zlt_Qlt. apply Qle_lt_trans with x; [apply Qfloor_le | exact H]. }
  apply Z.leb_gt in K. rewrite K. now rewrite andb_false_r.
Qed.

Lemma truncate_floor (x : Q) : (0 <= x)%Q -> truncate x = Qfloor x.
Proof.
  destruct x as [n d]. unfold Qle, truncate, Qfloor. simpl. intros H.
  apply Z.quot_div_nonneg; lia.
Qed.

Lemma floor_bounds (x : Q) (lo hi : Z) :
  (inject_Z lo <= x)%Q -> (x < inject_Z hi)%Q -> (lo <= Qfloor x < hi)%Z.
Proof.
  intros L H. split.
  - rewrite <- (Qfloor_Z lo). now apply Qfloor_resp_le.
  - rewrite Zlt_Qlt. apply Qle_lt_trans with x; [apply Qfloor_le | exact H].
Qed.

(** For a rating from 0 up to, but not including, 5.5 the row has
    [floor rating] full stars and five stars in all. *)
Lemma renderStars_row (q : Q) :
  (0 <= q)%Q -> (q < 11 # 2)%Q ->
  exists row,
    renderStars (Fin q) = Some row
    /\ fullCount row = Z.to_nat (Qfloor q)
    /\ (halfShown row = true <-> (1 # 2 <= q - inject_Z (Qfloor q))%Q)
    /\ (fullCount row + (if halfShown row then 1 else 0) + emptyCount row = 5)%nat.
Proof.
  intros Hlo Hhi. set (k := Qfloor q).
  assert (Hk : (0 <= k < 6)%Z).
  { apply floor_bounds; [exact Hlo|].
    apply Qlt_trans with (11 # 2); [exact Hhi | reflexivity]. }
  pose proof (Qfloor_le q) as Fl. pose proof (Qlt_floor q) as Fu. fold k in Fl, Fu.
  rewrite inject_Z_plus in Fu. change (inject_Z 1) with 1%Q in Fu.
  unfold renderStars. cbn [floor remainderOne]. rewrite (truncate_floor q Hlo). fold k.
  rewrite (arrayOfLength_integer (inject_Z k) k) by reflexivity.
  replace ((0 <=? k)%Z && (k <? 2 ^ 32)%Z) with true
    by (symmetry; apply andb_true_iff; split; [apply Z.leb_le | apply Z.ltb_lt]; lia).
  unfold geb, leb. destruct (Qle_bool (1 # 2) (q - inject_Z k)) eqn:B.
  - apply Qle_bool_iff in B.
    assert (K5 : (k < 5)%Z).
    { destruct (Z.eq_dec k 5%Z) as [E|N]; [|lia].
      assert (I : inject_Z k = 5%Q) by now rewrite E.
      rewrite I in B. lra. }
    cbn [sub neg add].
    rewrite (arrayOfLength_integer _ (5 - k - 1))
      by (unfold Z.sub; rewrite ?inject_Z_plus, ?inject_Z_opp;
          change (inject_Z 5) with 5%Q; change (inject_Z 1) with 1%Q; ring).
    replace ((0 <=? 5 - k - 1)%Z && (5 - k - 1 <? 2 ^ 32)%Z) with true
      by (symmetry; apply andb_true_iff; split; [apply Z.leb_le | apply Z.ltb_lt]; lia).
    eexists. split; [reflexivity|]. cbn [fullCount halfShown emptyCount].
    repeat split; auto; lia.
  - assert (B' : ~ (1 # 2 <= q - inject_Z k)%Q)
      by (rewrite <- Qle_bool_iff; congruence).
    cbn [sub neg add].
    rewrite (arrayOfLength_integer _ (5 - k))
      by (unfold Z.sub; rewrite ?inject_Z_plus, ?inject_Z_opp;
          change (inject_Z 5) with 5%Q; change (inject_Z 1) with 1%Q; ring).
    replace ((0 <=? 5 - k)%Z && (5 - k <? 2 ^ 32)%Z) with true
      by (symmetry; apply andb_true_iff; split; [apply Z.leb_le | apply Z.ltb_lt]; lia).
    eexists. split; [reflexivity|]. cbn [fullCount halfShown emptyCount].
    repeat split; try lia; try discriminate. intros H. contradiction.
Qed.

(** From 5.5 on the count of empty stars is negative. *)
Lemma renderStars_above (q : Q) :
  (11 # 2 <= q)%Q -> renderStars (Fin q) = None.
Proof.
  intros Hq. set (k := Qfloor q).
  assert (Hlo : (0 <= q)%Q) by lra.
  assert (Hk : (5 <= k)%Z).
  { change 5%Z with (Qfloor (11 # 2)). apply Qfloor_resp_le, Hq. }
  pose proof (Qfloor_le q) as Fl. pose proof (Qlt_floor q) as Fu. fold k in Fl, Fu.
  rewrite inject_Z_plus in Fu. change (inject_Z 1) with 1%Q in Fu.
  unfold renderStars. cbn [floor remainderOne]. rewrite (truncate_floor q Hlo). fold k.
  rewrite (arrayOfLength_integer (inject_Z k) k) by reflexivity.
  destruct ((0 <=? k)%Z && (k <? 2 ^ 32)%Z); [|reflexivity].
  unfold geb, leb. destruct (Qle_bool (1 # 2) (q - inject_Z k)) eqn:B.
  - cbn [sub neg add].
    rewrite (arrayOfLength_integer _ (5 - k - 1))
      by (unfold Z.sub; rewrite ?inject_Z_plus, ?inject_Z_opp;
          change (inject_Z 5) with 5%Q; change (inject_Z 1) with 1%Q; ring).
    replace (0 <=? 5 - k - 1)%Z with false by (symmetry; apply Z.leb_gt; lia).
    reflexivity.
  - assert (B' : ~ (1 # 2 <= q - inject_Z k)%Q)
      by (rewrite <- Qle_bool_iff; congruence).
    assert (K6 : (6 <= k)%Z).
    { destruct (Z.eq_dec k 5%Z) as [E|N]; [|lia].
      assert (I : inject_Z k = 5%Q) by now rewrite E.
      rewrite I in B'. lra. }
    cbn [sub neg add].
    rewrite (arrayOfLength_integer _ (5 - k))
      by (unfold Z.sub; rewrite ?inject_Z_plus, ?inject_Z_opp;
          change (inject_Z 5) with 5%Q; change (inject_Z 1) with 1%Q; ring).
    replace (0 <=? 5 - k)%Z with false by (symmetry; apply Z.leb_gt; lia).
    reflexivity.
Qed.

(** The star row of a rating.  A rating from 0 up to, but not including,
    5.5, so every rating within [0, 5], gets five stars: [floor rating] full
    ones, a half one exactly when the fraction is at least one half, and
    empty ones for the rest.  Drawing fails with a RangeError exactly for
    the ratings that are NaN, infinite, negative or at least 5.5; and NaN is
    the rating of an item that [isValidItem] lets through. *)
Theorem renderStars_spec (rating : number) :
  (forall q, rating = Fin q -> (0 <= q)%Q -> (q < 11 # 2)%Q ->
   exists row,
     renderStars rating = Some row
     /\ fullCount row = Z.to_nat (Qfloor q)
     /\ (halfShown row = true <-> (1 # 2 <= q - inject_Z (Qfloor q))%Q)
     /\ (fullCount row + (if halfShown row then 1 else 0) + emptyCount row = 5)%nat)
  /\ (renderStars rating = None
      <-> match rating with
          | Fin q => (q < 0 \/ 11 # 2 <= q)%Q
          | _ => True
          end)
  /\ exists candidate,
       isValidItem (JObj candidate) = true
       /\ candidate !! "rating" = Some (JNum NaN)
       /\ renderStars NaN = None.
Proof.
  split; [|split].
  - intros q -> Hlo Hhi. now apply renderStars_row.
  - destruct rating as [| | |q]; try (split; [trivial | reflexivity]).
    split.
    + intros R. destruct (Qlt_le_dec q 0) as [N|P]; [now left|].
      destruct (Qlt_le_dec q (11 # 2)) as [L|G]; [|now right].
      destruct (renderStars_row q P L) as (row & R' & _). congruence.
    + intros [N|G]; [|now apply renderStars_above].
      unfold renderStars. cbn [floor].
      rewrite arrayOfLength_negative; [reflexivity|].
      apply Qle_lt_trans with q; [apply Qfloor_le | exact N].
  - exists nanItem. split; [vm_compute; reflexivity|].
    split; [vm_compute; reflexivity | reflexivity].
Qed.

End StarFacts.

(* ===================================================================== *)
(** * The item card and the filter panel *)
(* ===================================================================== *)

Section CardFacts.

Lemma length_append (a b : string) :
  String.length (a ++ b) = (String.length a + String.length b)%nat.
Proof.
  induction a as [|c a IH]; [reflexivity|].
  rewrite append_cons. simpl. now rewrite IH.
Qed.

Lemma length_substring (n : nat) (s : string) :
  String.length (String.substring 0 n s) = Nat.min n (String.length s).
Proof.
  revert s. induction n as [|n IH]; intros [|c s]; simpl; try reflexivity.
  now rewrite IH.
Qed.

Lemma substring_prefix (n : nat) (s : string) :
  exists rest, s = String.substring 0 n s ++ rest.
Proof.
  revert s. induction n as [|n IH]; intros [|c s]; simpl.
  - now exists "".
  - now exists (String c s).
  - now exists "".
  - destruct (IH s) as [rest E]. exists rest. rewrite append_cons. now rewrite <- E.
Qed.

(** The text of a card is the description itself when that has at most 120
    code units; otherwise it is the first 120 code units of the description
    followed by three dots, 123 code units in all.  So the text never has
    more than 123 code units, and a description of 121 or 122 code units
    comes out longer than it went in. *)
Theorem shortDescription_spec (item : DatasetItem) :
  (String.length (ItemCard.shortDescription item) <= 123)%nat
  /\ ((String.length (Item.description item) <= 120)%nat ->
      ItemCard.shortDescription item = Item.description item)
  /\ ((120 < String.length (Item.description item))%nat ->
      String.length (ItemCard.shortDescription item) = 123%nat
      /\ exists first rest,
           String.length first = 120%nat
           /\ Item.description item = first ++ rest
           /\ ItemCard.shortDescription item = first ++ "...").
Proof.
  unfold ItemCard.shortDescription.
  destruct (Nat.ltb_spec 120 (String.length (Item.description item))) as [L|L].
  - assert (E : String.length (String.substring 0 120 (Item.description item)) = 120%nat)
      by (rewrite length_substring; lia).
    assert (T : String.length (String.substring 0 120 (Item.description item) ++ "...")
                = 123%nat)
      by (rewrite length_append, E; reflexivity).
    split; [rewrite T; lia|]. split; [lia|]. intros _. split; [exact T|].
    destruct (substring_prefix 120 (Item.description item)) as [rest R].
    exists (String.substring 0 120 (Item.description item)), rest. auto.
  - split; [lia|]. split; [reflexivity | lia].
Qed.

(** A click on an entry of the filter panel flips that entry and no other:
    afterwards the entry is selected exactly if it was not, and every other
    entry is selected exactly if it was.  A selection without duplicates
    stays without duplicates, and two clicks on an entry that was not
    selected give the selection back. *)
Theorem handleToggle_spec (selected : list string) (entry : string) :
  (In entry (FilterPanel.handleToggle selected entry) <-> ~ In entry selected)
  /\ (forall other, other <> entry ->
        (In other (FilterPanel.handleToggle selected entry) <-> In other selected))
  /\ (List.NoDup selected -> List.NoDup (FilterPanel.handleToggle selected entry))
  /\ (~ In entry selected ->
      FilterPanel.handleToggle (FilterPanel.handleToggle selected entry) entry
      = selected).
Proof.
  assert (M : existsb (fun s => String.eqb s entry) selected = true <-> In entry selected).
  { rewrite existsb_exists. split.
    - intros [s [Hs E]]. apply String.eqb_eq in E. now subst.
    - intros H. exists entry. split; [exact H | apply String.eqb_refl]. }
  assert (F : forall l other,
             In other (List.filter (fun s => negb (String.eqb s entry)) l)
             <-> In other l /\ other <> entry).
  { intros l other. rewrite filter_In, negb_true_iff, String.eqb_neq. tauto. }
  assert (G : forall l, ~ In entry l ->
             List.filter (fun s => negb (String.eqb s entry)) l = l).
  { intros l H. apply forallb_filter_id, forallb_forall. intros s Hs.
    apply negb_true_iff, String.eqb_neq. intros ->. contradiction. }
  unfold FilterPanel.handleToggle at 1 2 3.
  destruct (existsb (fun s => String.eqb s entry) selected) eqn:E.
  - assert (Hin : In entry selected) by now apply M.
    split; [|split; [|split]].
    + rewrite F. tauto.
    + intros other N. rewrite F. tauto.
    + intros N. now apply List.NoDup_filter.
    + intros H. contradiction.
  - assert (Hout : ~ In entry selected) by (rewrite <- M; congruence).
    split; [|split; [|split]].
    + rewrite in_app_iff. simpl. tauto.
    + intros other N. rewrite in_app_iff. simpl. split; [|tauto].
      intros [H|[H|[]]]; [exact H | congruence].
    + intros N. apply List.NoDup_app; [exact N | repeat constructor; intros [] |].
      intros s Hs [<-|[]]. contradiction.
    + intros _. unfold FilterPanel.handleToggle. rewrite E.
      assert (T : existsb (fun s => String.eqb s entry) (selected ++ [entry])%list
                  = true).
      { rewrite existsb_app. simpl. rewrite String.eqb_refl. now rewrite orb_true_r. }
      rewrite T, List.filter_app, (G selected Hout). simpl.
      rewrite String.eqb_refl. simpl. apply app_nil_r.
Qed.

End CardFacts.

(* ===================================================================== *)
(** * The home page *)
(* ===================================================================== *)

Section HomeFacts.
Import JSNumber.

(** The page divides without the guard that [calculateHomepageStatistics]
    has: the two averages are the same number on a dataset with items, and
    on a dataset without items the page computes NaN where the library
    function returns 0. *)
Theorem home_averageRating_spec (dataset : Dataset.t) :
  (Dataset.items dataset <> [] ->
   Home.averageRating dataset = averageRating (calculateHomepageStatistics dataset))
  /\ (Dataset.items dataset = [] ->
      Home.averageRating dataset = NaN
      /\ averageRating (calculateHomepageStatistics dataset) = Fin 0).
Proof.
  unfold Home.averageRating, calculateHomepageStatistics. cbn [averageRating].
  destruct (Dataset.items dataset) as [|item items].
  - split; [congruence|]. intros _. split; reflexivity.
  - split; [|discriminate]. intros _. reflexivity.
Qed.

Lemma StronglySorted_app {A : Type} (R : A -> A -> Prop) (l1 l2 : list A) :
  StronglySorted R (l1 ++ l2)%list ->
  forall x y, In x l1 -> In y l2 -> R x y.
Proof.
  induction l1 as [|a l1 IH]; simpl; intros Hs x y Hx Hy; [contradiction|].
  apply StronglySorted_inv in Hs as [Hs Ha]. destruct Hx as [<-|Hx].
  - rewrite List.Forall_forall in Ha. apply Ha, in_or_app. now right.
  - now apply IH.
Qed.

Lemma in_firstn {A : Type} (n : nat) (l : list A) (x : A) :
  In x (firstn n l) -> In x l.
Proof. intros H. rewrite <- (firstn_skipn n l). apply in_or_app. now left. Qed.

Lemma in_skipn {A : Type} (n : nat) (l : list A) (x : A) :
  In x (skipn n l) -> In x l.
Proof. intros H. rewrite <- (firstn_skipn n l). apply in_or_app. now right. Qed.

(** The featured items are the first three of the items in descending
    order of rating: there are three of them, or as many as there are items,
    they are items of the dataset, and when no rating is NaN no item that is
    left out has a higher rating than a featured one. *)
Theorem featuredItems_spec (dataset : Dataset.t) :
  length (Home.featuredItems dataset) = Nat.min 3 (length (Dataset.items dataset))
  /\ exists rest,
       Permutation (Home.featuredItems dataset ++ rest)%list (Dataset.items dataset)
       /\ (Forall (fun item => Item.rating item <> NaN) (Dataset.items dataset) ->
           forall shown left,
             In shown (Home.featuredItems dataset) -> In left rest ->
             geb (Item.rating shown) (Item.rating left) = true).
Proof.
  unfold Home.featuredItems.
  set (comparefn := fun a b : DatasetItem => sub (Item.rating b) (Item.rating a)).
  set (items := Dataset.items dataset).
  pose proof (sort_permutation comparefn items) as P.
  split.
  - rewrite length_firstn. now rewrite <- (Permutation_length P).
  - exists (skipn 3 (sort comparefn items)). rewrite firstn_skipn.
    split; [now symmetry|]. intros Hok shown left Hs Hl.
    set (ok := fun item : DatasetItem => Item.rating item <> NaN) in *.
    assert (After : forall x y, ok x -> ok y ->
              sortsAfter comparefn x y = ltb (Item.rating x) (Item.rating y)).
    { intros x y Hx Hy. unfold sortsAfter, sortCompare, comparefn.
      now apply difference_positive. }
    assert (Sorted : StronglySorted (fun x y => sortsAfter comparefn x y = false)
                                    (sort comparefn items)).
    { apply (sort_sorted comparefn ok); [| |exact Hok].
      - intros x y Hx Hy. rewrite !After by assumption. apply ltb_asym.
      - intros x y z Hx Hy Hz. rewrite !After by assumption.
        now apply notLess_trans. }
    assert (Oks : Forall ok (sort comparefn items)) by now rewrite <- P.
    rewrite List.Forall_forall in Oks.
    rewrite <- (firstn_skipn 3 (sort comparefn items)) in Sorted.
    pose proof (StronglySorted_app _ _ _ Sorted shown left Hs Hl) as N.
    assert (Os : ok shown) by (apply Oks; eapply in_firstn, Hs).
    assert (Ol : ok left) by (apply Oks; eapply in_skipn, Hl).
    cbv beta in N. rewrite After in N by assumption.
    unfold geb. now apply notLess_geb.
Qed.

Lemma filter_length_le {A : Type} (f g : A -> bool) (l : list A) :
  (forall x, In x l -> f x = true -> g x = true) ->
  (length (List.filter f l) <= length (List.filter g l))%nat
  /\ (length (List.filter f l) = length (List.filter g l)
      <-> forall x, In x l -> g x = true -> f x = true).
Proof.
  induction l as [|a l IH]; intros H.
  - simpl. split; [lia|]. split; [intros _ x [] | reflexivity].
  - destruct IH as [Le Eq]; [intros x Hx; apply H; now right|].
    pose proof (H a (or_introl eq_refl)) as Ha.
    pose proof (List.filter_length_le g l) as Bound.
    simpl. destruct (f a) eqn:Fa, (g a) eqn:Ga; simpl.
    + split; [lia|]. rewrite Nat.succ_inj_wd, Eq. split.
      * intros K x [<-|Hx]; [congruence | now apply K].
      * intros K x Hx. apply K. now right.
    + specialize (Ha eq_refl). discriminate.
    + split; [lia|]. split.
      * intros E. lia.
      * intros K. specialize (K a (or_introl eq_refl) Ga). congruence.
    + split; [exact Le|]. rewrite Eq. split.
      * intros K x [<-|Hx]; [congruence | now apply K].
      * intros K x Hx. apply K. now right.
Qed.

End HomeFacts.

(* ===================================================================== *)
(** * The listings *)
(* ===================================================================== *)

Section ListingFacts.
Variable localeCompare : string -> string -> Z.

(** What [sortItems] returns holds the argument's elements, sorted by the
    mode's comparator, or as they are for a mode that has none. *)
Lemma sortedItems_eq (elems : list DatasetItem) (sortBy : string) :
  sortedItems localeCompare elems sortBy
  = match comparatorOf localeCompare sortBy with
    | Some comparefn => sort comparefn elems
    | None => elems
    end.
Proof.
  unfold sortedItems, sortItems, spread, sortInPlace. simpl.
  now destruct (comparatorOf localeCompare sortBy).
Qed.

(** [sortedItems] is what [sortItems] gives on any heap: the result is a new
    array with these contents, and the arrays that were there are as they
    were. *)
Lemma sortItems_contents (h : heap) (items : ref) (elems : list DatasetItem)
    (sortBy : string) :
  h !! items = Some elems ->
  exists h1 sorted,
    sortItems localeCompare h items sortBy = Some (h1, sorted)
    /\ h1 !! sorted = Some (sortedItems localeCompare elems sortBy)
    /\ forall a, (a < length h)%nat -> h1 !! a = h !! a.
Proof.
  intros Hi. rewrite sortedItems_eq. unfold sortItems, spread. rewrite Hi.
  cbv beta iota zeta. destruct (comparatorOf localeCompare sortBy) as [comparefn|].
  - unfold sortInPlace. rewrite list_lookup_middle by reflexivity.
    eexists _, _. split; [reflexivity|]. split.
    + rewrite list_lookup_insert_eq; [reflexivity|]. rewrite length_app. simpl. lia.
    + intros a Ha. rewrite list_lookup_insert_ne by lia.
      now apply lookup_app_l.
  - eexists _, _. split; [reflexivity|]. split.
    + now apply list_lookup_middle.
    + intros a Ha. now apply lookup_app_l.
Qed.

Lemma sortedItems_permutation (elems : list DatasetItem) (sortBy : string) :
  Permutation elems (sortedItems localeCompare elems sortBy).
Proof.
  rewrite sortedItems_eq. destruct (comparatorOf localeCompare sortBy).
  - apply sort_permutation.
  - reflexivity.
Qed.

Lemma Selects_compose {A : Type} (P Q : A -> Prop) (l k m : list A) :
  Selects P l k -> Selects Q k m -> Selects (fun x => P x /\ Q x) l m.
Proof.
  intros H. revert m. induction H as [|x l k Px _ IH|x l k Px _ IH]; intros m Hm.
  - inversion Hm. constructor.
  - inversion Hm; subst.
    + apply Selects_keep; [now split | now apply IH].
    + apply Selects_skip; [tauto | now apply IH].
  - apply Selects_skip; [tauto | now apply IH].
Qed.

Lemma Selects_ext {A : Type} (P Q : A -> Prop) (l k : list A) :
  (forall x, P x <-> Q x) -> Selects P l k -> Selects Q l k.
Proof.
  intros E H. induction H; constructor; auto; now rewrite <- E.
Qed.

Lemma Selects_length {A : Type} (P : A -> Prop) (l k : list A) :
  Selects P l k -> (length k <= length l)%nat.
Proof. induction 1; simpl; lia. Qed.

(** The search step of the two listings: skipped for the empty query. *)
Lemma search_step (items : list DatasetItem) (searchQuery : string) :
  Selects (matchesQuery (trim (toLowerCase searchQuery))) items
          (if negb (isFalsy searchQuery) then searchItems items searchQuery
           else items).
Proof.
  destruct (isFalsy searchQuery) eqn:E; cbn [negb].
  - apply String.eqb_eq in E. subst. apply Selects_all. intros item. left.
    now exists "", (toLowerCase (Item.name item)).
  - apply searchItems_selects.
Qed.

(** The listing of the browse page holds, in some order, exactly the items
    of the dataset that match the query, whose category is one of the
    selected categories when any is selected, and that carry one of the
    selected tags when any is selected.  The three conditions are combined
    by AND; the category is compared as it is, not up to case. *)
Theorem browseFilteredItems_spec (dataset : Dataset.t) (searchQuery : string)
    (selectedCategories selectedTags : list string) (sortBy : string) :
  exists selected,
    Selects (fun item =>
               matchesQuery (trim (toLowerCase searchQuery)) item
               /\ (selectedCategories = [] \/ In (Item.category item) selectedCategories)
               /\ (selectedTags = [] \/ carriesSomeTag selectedTags item))
            (Dataset.items dataset) selected
    /\ Permutation selected
         (browseFilteredItems localeCompare dataset searchQuery
            selectedCategories selectedTags sortBy).
Proof.
  unfold browseFilteredItems. cbv zeta.
  set (s1 := if negb (isFalsy searchQuery)
             then searchItems (Dataset.items dataset) searchQuery
             else Dataset.items dataset).
  set (s2 := if (0 <? length selectedCategories)%nat then List.filter _ s1 else s1).
  set (s3 := if (0 <? length selectedTags)%nat
             then filterByTags s2 (Some selectedTags) else s2).
  assert (H1 : Selects (matchesQuery (trim (toLowerCase searchQuery)))
                       (Dataset.items dataset) s1) by apply search_step.
  assert (H2 : Selects (fun item => selectedCategories = []
                                    \/ In (Item.category item) selectedCategories)
                       s1 s2).
  { subst s2. destruct selectedCategories as [|c cs]; cbn [length Nat.ltb Nat.leb].
    - apply Selects_all. now left.
    - apply filter_Selects. intros item. rewrite existsb_exists. split.
      + intros [x [Hx E]]. apply String.eqb_eq in E. subst. now right.
      + intros [H|H]; [discriminate|].
        eexists. split; [exact H | apply String.eqb_refl]. }
  assert (H3 : Selects (fun item => selectedTags = []
                                    \/ carriesSomeTag selectedTags item)
                       s2 s3).
  { subst s3. destruct selectedTags as [|t ts]; cbn [length Nat.ltb Nat.leb].
    - apply Selects_all. now left.
    - unfold filterByTags. cbn [length Nat.eqb].
      apply filter_Selects. intros item. rewrite carriesSomeTag_spec. split.
      + now right.
      + intros [H|H]; [discriminate | exact H]. }
  exists s3. split; [|apply sortedItems_permutation].
  eapply Selects_ext;
    [|exact (Selects_compose _ _ _ _ _ (Selects_compose _ _ _ _ _ H1 H2) H3)].
  intros item. cbv beta. tauto.
Qed.

(** The category page shows Category Not Found exactly when the lookup of
    the URL parameter fails.  Otherwise its listing holds, in some order,
    exactly the items whose category equals the parameter up to case and
    surrounding white space and that match the query, and never more items
    than the count it shows for the category.  A blank parameter that
    resolves lists the items of every category. *)
Theorem categoryFilteredItems_spec (dataset : Dataset.t)
    (category searchQuery sortBy : string) :
  (categoryFilteredItems localeCompare dataset category searchQuery sortBy = None
   <-> findOriginalCategory category (Dataset.categories dataset) = None)
  /\ forall shown,
       categoryFilteredItems localeCompare dataset category searchQuery sortBy
       = Some shown ->
       exists selected count,
         Selects (fun item =>
                    (trim category = ""
                     \/ sameIgnoringCaseAndSpace (Item.category item) category)
                    /\ matchesQuery (trim (toLowerCase searchQuery)) item)
                 (Dataset.items dataset) selected
         /\ Permutation selected shown
         /\ categoryItemCount dataset category = Some count
         /\ (length shown <= count)%nat.
Proof.
  unfold categoryFilteredItems, categoryItemCount.
  destruct (findOriginalCategory category (Dataset.categories dataset))
    as [original|] eqn:F; [|split; [tauto | discriminate]].
  apply findOriginalCategory_some in F as (Hne & _ & _ & _ & Hsame & _).
  apply String.eqb_neq in Hne. unfold isFalsy. rewrite Hne.
  split; [split; discriminate|]. intros shown [= <-].
  assert (Hcat : Selects (fun item =>
                    trim category = ""
                    \/ sameIgnoringCaseAndSpace (Item.category item) category)
                   (Dataset.items dataset)
                   (filterByCategory (Dataset.items dataset) original)).
  { rewrite (filterByCategory_insensitive _ original category Hsame).
    destruct (String.eqb_spec (trim category) "") as [B|B].
    - rewrite (filterByCategory_blank _ category B). apply Selects_all. now left.
    - eapply Selects_ext; [|apply (filterByCategory_selects _ category B)].
      intros item. cbv beta. tauto. }
  pose proof (search_step (filterByCategory (Dataset.items dataset) original)
                          searchQuery) as Hsearch.
  eexists _, _. split; [exact (Selects_compose _ _ _ _ _ Hcat Hsearch)|].
  split; [apply sortedItems_permutation|]. split; [reflexivity|].
  rewrite <- (Permutation_length (sortedItems_permutation _ sortBy)).
  exact (Selects_length _ _ _ Hsearch).
Qed.

(** The category page for the parameter that a non-blank category
    normalises to. *)
Lemma categoryPage_of_category (dataset : Dataset.t) (category sortBy : string) :
  In category (Dataset.categories dataset) ->
  trim category <> "" ->
  exists shown,
    categoryFilteredItems localeCompare dataset (normalizeCategoryForUrl category)
                          "" sortBy = Some shown
    /\ Permutation shown (filterByCategory (Dataset.items dataset) category)
    /\ categoryItemCount dataset (normalizeCategoryForUrl category)
       = Some (length shown)
    /\ (Home.categoryCount dataset category <= length shown)%nat
    /\ (Home.categoryCount dataset category = length shown
        <-> forall item, In item (Dataset.items dataset) ->
              sameIgnoringCaseAndSpace (Item.category item) category ->
              Item.category item = category).
Proof.
  intros Hin Hnb.
  assert (R : exists original,
             findOriginalCategory (normalizeCategoryForUrl category)
                                  (Dataset.categories dataset) = Some original
             /\ original <> "" /\ sameIgnoringCaseAndSpace original category).
  { unfold normalizeCategoryForUrl, findOriginalCategory. rewrite normalize_idem.
    destruct (List.find _ (Dataset.categories dataset)) as [found|] eqn:F.
    - apply find_some in F as [_ E]. apply String.eqb_eq in E.
      assert (N : found <> "").
      { intros ->. apply Hnb, trim_toLowerCase_empty. now rewrite <- E. }
      apply String.eqb_neq in N as N'. unfold isFalsy. rewrite N'.
      exists found. auto.
    - apply (find_none _ _ F) in Hin. now rewrite String.eqb_refl in Hin. }
  destruct R as (original & R & Hne & Hsame).
  unfold categoryFilteredItems, categoryItemCount. rewrite R.
  apply String.eqb_neq in Hne. unfold isFalsy at 1 3. rewrite Hne.
  cbn [isFalsy String.eqb negb].
  rewrite (filterByCategory_insensitive _ original category Hsame).
  eexists. split; [reflexivity|].
  pose proof (sortedItems_permutation
                (filterByCategory (Dataset.items dataset) category) sortBy) as P.
  rewrite <- (Permutation_length P). split; [now symmetry|]. split; [reflexivity|].
  unfold Home.categoryCount, filterByCategory.
  destruct (isFalsy category || String.eqb (trim category) "") eqn:G;
    [now apply blank_guard in G|].
  destruct (filter_length_le
              (fun item => String.eqb (Item.category item) category)
              (fun item => String.eqb (trim (toLowerCase (Item.category item)))
                                      (trim (toLowerCase category)))
              (Dataset.items dataset)) as [Le Eq].
  { intros item _ E. apply String.eqb_eq in E. rewrite E. apply String.eqb_refl. }
  split; [exact Le|]. rewrite Eq. unfold sameIgnoringCaseAndSpace.
  split; intros K item Hi.
  - intros E. apply String.eqb_eq, K; [exact Hi | now apply String.eqb_eq].
  - intros E. apply String.eqb_eq, K; [exact Hi | now apply String.eqb_eq].
Qed.

(** The count on a category card of the home page against the category
    page.  For each parameter that [generateStaticParams] makes, other than
    the empty one, the page component given that parameter resolves and
    lists, in some order, the items that [filterByCategory] selects for it.
    The card of a category that normalises to the parameter counts the items
    that spell the category as the card does: at most the number of items
    listed, and as many exactly when every item whose category equals the
    card's up to case and surrounding white space spells it that way.  How a
    browser gets from the card to the page is not part of the statement. *)
Theorem home_categoryCount_spec (dataset : Dataset.t) (param sortBy : string) :
  In param (categoryStaticParams dataset) ->
  param <> "" ->
  exists shown,
    categoryFilteredItems localeCompare dataset param "" sortBy = Some shown
    /\ Permutation shown (filterByCategory (Dataset.items dataset) param)
    /\ categoryItemCount dataset param = Some (length shown)
    /\ forall category,
         In category (Dataset.categories dataset) ->
         normalizeCategoryForUrl category = param ->
         (Home.categoryCount dataset category <= length shown)%nat
         /\ (Home.categoryCount dataset category = length shown
             <-> forall item, In item (Dataset.items dataset) ->
                   sameIgnoringCaseAndSpace (Item.category item) category ->
                   Item.category item = category).
Proof.
  intros Hin Hne. unfold categoryStaticParams in Hin.
  apply in_map_iff in Hin as (c & Ec & Hc).
  assert (Blank : forall category,
            normalizeCategoryForUrl category = param -> trim category <> "").
  { intros category E B. apply Hne. rewrite <- E.
    now apply trim_toLowerCase_empty. }
  destruct (categoryPage_of_category dataset c sortBy Hc (Blank c Ec))
    as (shown & F & P & N & _). rewrite Ec in F, N.
  exists shown. split; [exact F|]. split; [|split; [exact N|]].
  - rewrite P. apply Permutation_refl'.
    apply filterByCategory_insensitive. unfold sameIgnoringCaseAndSpace.
    rewrite <- Ec. unfold normalizeCategoryForUrl. now rewrite normalize_idem.
  - intros category Hcat E.
    destruct (categoryPage_of_category dataset category sortBy Hcat (Blank _ E))
      as (shown' & F' & _ & _ & Le & Eq). rewrite E, F in F'.
    injection F' as <-. now split.
Qed.

End ListingFacts.

Lemma home_categoryCount_spec_witness :
  exists shown,
    categoryFilteredItems codeUnitCompare scenarioDataset "x" "" "name-asc"
    = Some shown
    /\ Permutation shown (filterByCategory (Dataset.items scenarioDataset) "x")
    /\ categoryItemCount scenarioDataset "x" = Some (length shown)
    /\ forall category,
         In category (Dataset.categories scenarioDataset) ->
         normalizeCategoryForUrl category = "x" ->
         (Home.categoryCount scenarioDataset category <= length shown)%nat
         /\ (Home.categoryCount scenarioDataset category = length shown
             <-> forall item, In item (Dataset.items scenarioDataset) ->
                   sameIgnoringCaseAndSpace (Item.category item) category ->
                   Item.category item = category).
Proof.
  apply (home_categoryCount_spec codeUnitCompare scenarioDataset "x" "name-asc").
  - vm_compute. tauto.
  - discriminate.
Defined.

(* ===================================================================== *)
(** * The item page *)
(* ===================================================================== *)

Section ItemPageFacts.
Import ItemDetailPage.

Lemma find_unique_slug (items : list DatasetItem) (item : DatasetItem) :
  List.NoDup (map Item.slug items) -> In item items ->
  List.find (fun i => String.eqb (Item.slug i) (Item.slug item)) items = Some item.
Proof.
  induction items as [|x items IH]; simpl; intros N Hin; [contradiction|].
  apply List.NoDup_cons_iff in N as [Nx N].
  destruct Hin as [->|Hin]; [now rewrite String.eqb_refl|].
  destruct (String.eqb_spec (Item.slug x) (Item.slug item)) as [E|_].
  - exfalso. apply Nx. rewrite E. now apply in_map.
  - now apply IH.
Qed.

(** The generated paths are exactly the slugs at which the page finds an
    item; the item found is an item of the dataset with that slug, the first
    one in dataset order.  When no two items share a slug, every item is
    found at its own slug. *)
Theorem getItemBySlug_spec (dataset : Dataset.t) (slug : string) :
  (In slug (generateStaticParams dataset)
   <-> exists item, getItemBySlug dataset slug = Some item)
  /\ (forall item, getItemBySlug dataset slug = Some item ->
        Item.slug item = slug
        /\ exists before after,
             Dataset.items dataset = (before ++ item :: after)%list
             /\ forall other, In other before -> Item.slug other <> slug)
  /\ (List.NoDup (generateStaticParams dataset) ->
      forall item, In item (Dataset.items dataset) ->
        getItemBySlug dataset (Item.slug item) = Some item).
Proof.
  unfold generateStaticParams, getItemBySlug. split; [|split].
  - rewrite in_map_iff. split.
    + intros (item & E & Hin).
      destruct (List.find _ (Dataset.items dataset)) as [found|] eqn:F; [eauto|].
      apply (find_none _ _ F) in Hin. apply String.eqb_neq in Hin. contradiction.
    + intros [item F]. apply find_some in F as [Hin E].
      apply String.eqb_eq in E. eauto.
  - intros item F. apply find_some_first in F as (before & after & E & Hs & Hb).
    apply String.eqb_eq in Hs. split; [exact Hs|].
    exists before, after. split; [exact E|].
    intros other Ho. apply String.eqb_neq. now apply Hb.
  - intros N item Hin. now apply find_unique_slug.
Qed.

(** The related items are at most [limit] items of the dataset, in dataset
    order, each of the category of the item, spelled the same, and of
    another id; the item itself is never among them.  When the candidates
    are no more than [limit], all of them are shown. *)
Theorem getRelatedItems_spec (dataset : Dataset.t) (item : DatasetItem) (limit : nat) :
  exists candidates,
    Selects (fun i => Item.category i = Item.category item
                      /\ Item.id i <> Item.id item)
            (Dataset.items dataset) candidates
    /\ getRelatedItems dataset item limit = firstn limit candidates
    /\ (length (getRelatedItems dataset item limit) <= limit)%nat
    /\ ~ In item (getRelatedItems dataset item limit)
    /\ ((length candidates <= limit)%nat ->
        getRelatedItems dataset item limit = candidates).
Proof.
  unfold getRelatedItems. eexists. split; [|split; [reflexivity|split; [|split]]].
  - apply filter_Selects. intros i.
    rewrite andb_true_iff, negb_true_iff, String.eqb_eq, String.eqb_neq. tauto.
  - rewrite length_firstn. lia.
  - intros Hin. apply in_firstn, filter_In in Hin as [_ H].
    rewrite !String.eqb_refl in H. discriminate H.
  - intros L. now apply firstn_all2.
Qed.

End ItemPageFacts.

(* ===================================================================== *)
(** * Filtering and sorting in either order *)
(* ===================================================================== *)

Section OrderOfSteps.
Variable localeCompare : string -> string -> Z.
Hypothesis consistent : ConsistentCollation localeCompare.

Lemma Permutation_filter {A : Type} (p : A -> bool) (l k : list A) :
  Permutation l k -> Permutation (List.filter p l) (List.filter p k).
Proof.
  induction 1 as [|x l k _ IH|x y l|l k m _ IH1 _ IH2]; simpl.
  - constructor.
  - destruct (p x); [now constructor | exact IH].
  - destruct (p x), (p y); try reflexivity. apply perm_swap.
  - now transitivity (List.filter p k).
Qed.

Lemma StronglySorted_filter {A : Type} (R : A -> A -> Prop) (p : A -> bool)
    (l : list A) :
  StronglySorted R l -> StronglySorted R (List.filter p l).
Proof.
  induction 1 as [|x l _ IH Hx]; simpl; [constructor|].
  destruct (p x); [|exact IH]. constructor; [exact IH|].
  rewrite List.Forall_forall in *. intros y Hy. apply Hx.
  now apply filter_In in Hy.
Qed.

(** A stable sort under a consistent comparator commutes with every
    filter. *)
Lemma sort_filter (sortBy : string) comparefn (p : DatasetItem -> bool)
    (l : list DatasetItem) :
  comparatorOf localeCompare sortBy = Some comparefn ->
  Forall (comparable sortBy) l ->
  List.filter p (sort comparefn l) = sort comparefn (List.filter p l).
Proof.
  intros Hc Hl.
  destruct (comparator_consistent localeCompare consistent sortBy comparefn Hc)
    as [Ha Ht].
  assert (Hf : Forall (comparable sortBy) (List.filter p l)).
  { rewrite List.Forall_forall in *. intros x Hx. apply Hl.
    now apply filter_In in Hx. }
  apply (sort_unique comparefn (comparable sortBy) Ha Ht).
  - exact Hf.
  - apply Permutation_filter, sort_permutation.
  - apply StronglySorted_filter.
    exact (sort_sorted comparefn (comparable sortBy) Ha Ht l Hl).
  - intros z Hz. rewrite filter_swap.
    rewrite (sort_stable comparefn (comparable sortBy) Ha Ht z l Hz Hl).
    apply filter_swap.
Qed.

Lemma sortedItems_filter (sortBy : string) (p : DatasetItem -> bool)
    (l : list DatasetItem) :
  Forall (comparable sortBy) l ->
  List.filter p (sortedItems localeCompare l sortBy)
  = sortedItems localeCompare (List.filter p l) sortBy.
Proof.
  intros Hl. rewrite !sortedItems_eq.
  destruct (comparatorOf localeCompare sortBy) as [comparefn|] eqn:Hc;
    [|reflexivity].
  now apply (sort_filter sortBy).
Qed.

(** The listings filter first and sort last.  The other order gives the
    same: when the items are comparable under the mode, searching or
    filtering the sorted items returns what sorting the search or filter
    result returns, in the same order. *)
Theorem sortItems_after_filters (items : list DatasetItem) (sortBy : string) :
  Forall (comparable sortBy) items ->
  (forall query,
     searchItems (sortedItems localeCompare items sortBy) query
     = sortedItems localeCompare (searchItems items query) sortBy)
  /\ (forall category,
        filterByCategory (sortedItems localeCompare items sortBy) category
        = sortedItems localeCompare (filterByCategory items category) sortBy)
  /\ (forall tags,
        filterByTags (sortedItems localeCompare items sortBy) tags
        = sortedItems localeCompare (filterByTags items tags) sortBy)
  /\ (forall minRating,
        filterByMinRating (sortedItems localeCompare items sortBy) minRating
        = sortedItems localeCompare (filterByMinRating items minRating) sortBy).
Proof.
  intros Hl. split; [|split; [|split]].
  - intros query. destruct (searchItems_as_filter query) as [p E].
    rewrite !E. now apply sortedItems_filter.
  - intros category. destruct (filterByCategory_as_filter category) as [p E].
    rewrite !E. now apply sortedItems_filter.
  - intros tags. destruct (filterByTags_as_filter tags) as [p E].
    rewrite !E. now apply sortedItems_filter.
  - intros minRating. destruct (filterByMinRating_as_filter minRating) as [p E].
    rewrite !E. now apply sortedItems_filter.
Qed.

End OrderOfSteps.

Lemma sortItems_after_filters_witness :
  (forall query,
     searchItems (sortedItems codeUnitCompare [itemA; itemB] "rating-desc") query
     = sortedItems codeUnitCompare (searchItems [itemA; itemB] query) "rating-desc")
  /\ (forall category,
        filterByCategory (sortedItems codeUnitCompare [itemA; itemB] "rating-desc")
                         category
        = sortedItems codeUnitCompare (filterByCategory [itemA; itemB] category)
                      "rating-desc")
  /\ (forall tags,
        filterByTags (sortedItems codeUnitCompare [itemA; itemB] "rating-desc") tags
        = sortedItems codeUnitCompare (filterByTags [itemA; itemB] tags) "rating-desc")
  /\ (forall minRating,
        filterByMinRating (sortedItems codeUnitCompare [itemA; itemB] "rating-desc")
                          minRating
        = sortedItems codeUnitCompare (filterByMinRating [itemA; itemB] minRating)
                      "rating-desc").
Proof.
  apply (sortItems_after_filters codeUnitCompare codeUnitCompare_consistent
           [itemA; itemB] "rating-desc").
  repeat constructor; intros _; discriminate.
Defined.
